(** * Vision AI Agent: the upload store and the generation orchestrator

    A shallow embedding of the state and the event handlers of
    [src/App.tsx].  The React state of the [App] component is a record and
    every [setX] call of the source is a function on that record.  An [async]
    handler is split at its [await]: [h_begin] is what runs when the event
    fires, on the state of the render the handler closed over, and
    [h_settled] is what runs when the awaited promise settles, on the state as
    it is then.  The component as a whole is an event system whose state
    holds, next to the React state, the handlers suspended at their [await].

    What the browser and the generation services answer (the result of
    reading a file, the numbers drawn by [Math.random], the response of a
    call or the exception it throws) is part of the events. *)

From Stdlib Require Import String Ascii List Bool Arith Lia.
From Stdlib Require Import ZArith DecimalString DecimalZ.
Import ListNotations.

Local Open Scope list_scope.
Local Open Scope string_scope.

(** ** JavaScript strings *)

Module JS.

(** A line break inside a template literal, and the double-quote character. *)
Definition nl : string := String "010"%char EmptyString.
Definition dq : string := String "034"%char EmptyString.

(** Truthiness of a string: only the empty string is falsy. *)
Definition truthy (s : string) : bool :=
  match s with
  | EmptyString => false
  | String _ _ => true
  end.

(** [x || d] where [x] is a string or [undefined]. *)
Definition or_else (x : option string) (d : string) : string :=
  match x with
  | Some s => if truthy s then s else d
  | None => d
  end.

(** [`${x}`] where [x] is a string or [undefined]. *)
Definition interpolate (x : option string) : string :=
  match x with
  | Some s => s
  | None => "undefined"
  end.

(** [s.substr(start, len)]: at most [len] characters from position [start]. *)
Definition substr (s : string) (start len : nat) : string :=
  String.substring start len s.

(** [s.split(c)] for a one-character separator [c]. *)
Fixpoint split_from (c : ascii) (acc : string) (s : string) : list string :=
  match s with
  | EmptyString => [acc]
  | String a rest =>
      if Ascii.eqb a c then acc :: split_from c EmptyString rest
      else split_from c (acc ++ String a EmptyString) rest
  end.

Definition split (c : ascii) (s : string) : list string :=
  split_from c EmptyString s.

(** [hay] has [needle] as a contiguous piece. *)
Definition includes (hay needle : string) : Prop :=
  exists before after, hay = before ++ needle ++ after.

End JS.

(** ** Constants: the preset tables *)

Module Preset.
Record t := mk { id : string; label : string; prompt : string }.
End Preset.

Definition SCENES : list Preset.t :=
  [ Preset.mk "city" "🏙️ 城市街道" "in a bustling city street with skyscrapers and traffic";
    Preset.mk "nature" "🌿 自然风光" "in a serene natural landscape with mountains and lakes";
    Preset.mk "ocean" "🌊 海洋沙滩" "on a beautiful beach with turquoise water and waves";
    Preset.mk "space" "🚀 太空宇宙" "in deep space surrounded by stars and nebulae";
    Preset.mk "fantasy" "🏰 奇幻世界" "in a magical fantasy realm with floating islands and mystical creatures";
    Preset.mk "cyberpunk" "🤖 赛博朋克" "in a futuristic cyberpunk city with neon lights and rain";
    Preset.mk "ancient" "🏛️ 古代场景" "in an ancient historical setting with traditional architecture";
    Preset.mk "indoor" "🏠 室内场景" "in a cozy and modern indoor living space" ].

Definition STYLES : list Preset.t :=
  [ Preset.mk "merged" "合并场景" "seamlessly merged artistic style";
    Preset.mk "surreal" "超现实艺术" "surrealist masterpiece, dreamlike atmosphere";
    Preset.mk "anime" "动漫风格" "high-quality anime illustration style";
    Preset.mk "cinematic" "电影级" "cinematic lighting, hyper-realistic, 8k resolution";
    Preset.mk "3d" "3D 渲染" "octane render, 3D digital art, highly detailed";
    Preset.mk "oil" "油画" "classical oil painting texture, expressive brushstrokes" ].

(** [TABLE.find(s => s.id === selected)] *)
Definition find_preset (table : list Preset.t) (selected : string) : option Preset.t :=
  List.find (fun s => String.eqb (Preset.id s) selected) table.

(** ** Types *)

Module File.
(** The browser's [File]: only its media type is read by the handlers. *)
Record t := mk { name : string; type : string }.
End File.

Module UploadedFile.
(** [base64] is [dataUrl.split(',')[1]], which is [undefined] when the data
    URL has no comma. *)
Record t := mk { id : string; file : File.t; preview : string; base64 : option string }.
End UploadedFile.

(** The ten [useState] cells of [App]. *)
Record State := mkState {
  files : list UploadedFile.t;
  description : string;
  selectedScene : string;
  selectedStyle : string;
  isGenerating : bool;
  generatedImage : option string;
  videoScript : option string;
  isGeneratingScript : bool;
  copied : bool;
  error : option string
}.

Definition nth_id (table : list Preset.t) (n : nat) : string :=
  match nth_error table n with
  | Some p => Preset.id p
  | None => EmptyString
  end.

Definition initial : State :=
  {| files := [];
     description := EmptyString;
     selectedScene := nth_id SCENES 0;
     selectedStyle := nth_id STYLES 0;
     isGenerating := false;
     generatedImage := None;
     videoScript := None;
     isGeneratingScript := false;
     copied := false;
     error := None |}.

(** ** State setters

    One function per [setX] of the source.  [setFiles] is only ever called
    with an updater function of the previous list, and is modelled so. *)

Definition setFiles (f : list UploadedFile.t -> list UploadedFile.t) (s : State) : State :=
  mkState (f (files s)) (description s) (selectedScene s) (selectedStyle s)
    (isGenerating s) (generatedImage s) (videoScript s) (isGeneratingScript s)
    (copied s) (error s).

Definition setDescription (v : string) (s : State) : State :=
  mkState (files s) v (selectedScene s) (selectedStyle s)
    (isGenerating s) (generatedImage s) (videoScript s) (isGeneratingScript s)
    (copied s) (error s).

Definition setSelectedScene (v : string) (s : State) : State :=
  mkState (files s) (description s) v (selectedStyle s)
    (isGenerating s) (generatedImage s) (videoScript s) (isGeneratingScript s)
    (copied s) (error s).

Definition setSelectedStyle (v : string) (s : State) : State :=
  mkState (files s) (description s) (selectedScene s) v
    (isGenerating s) (generatedImage s) (videoScript s) (isGeneratingScript s)
    (copied s) (error s).

Definition setIsGenerating (v : bool) (s : State) : State :=
  mkState (files s) (description s) (selectedScene s) (selectedStyle s)
    v (generatedImage s) (videoScript s) (isGeneratingScript s)
    (copied s) (error s).

Definition setGeneratedImage (v : option string) (s : State) : State :=
  mkState (files s) (description s) (selectedScene s) (selectedStyle s)
    (isGenerating s) v (videoScript s) (isGeneratingScript s)
    (copied s) (error s).

Definition setVideoScript (v : option string) (s : State) : State :=
  mkState (files s) (description s) (selectedScene s) (selectedStyle s)
    (isGenerating s) (generatedImage s) v (isGeneratingScript s)
    (copied s) (error s).

Definition setIsGeneratingScript (v : bool) (s : State) : State :=
  mkState (files s) (description s) (selectedScene s) (selectedStyle s)
    (isGenerating s) (generatedImage s) (videoScript s) v
    (copied s) (error s).

Definition setError (v : option string) (s : State) : State :=
  mkState (files s) (description s) (selectedScene s) (selectedStyle s)
    (isGenerating s) (generatedImage s) (videoScript s) (isGeneratingScript s)
    (copied s) v.

(** ** The upload store: [handleFileChange], [removeFile] *)

(** One entry of [e.target.files], with what the browser answers while the
    handler processes it: the result of [FileReader.readAsDataURL] ([None]
    when the reader fires [onerror]), the string [Math.random().toString(36)]
    drawn for it, and the URL handed out by [URL.createObjectURL]. *)
Record Picked := mkPicked {
  picked : File.t;
  reader_result : option string;
  random_toString36 : string;
  objectURL : string
}.

Definition capacity_message : string := "最多只能上传6张图片".

(** [fileToBase64]: the promise resolves with the data URL or rejects. *)
Definition fileToBase64 (x : Picked) : option string := reader_result x.

(** The body of the [newFiles.map(async (file) => ...)] callback. *)
Definition processFile (x : Picked) : option UploadedFile.t :=
  match fileToBase64 x with
  | Some base64 =>
      Some {| UploadedFile.id := JS.substr (random_toString36 x) 2 9;
              UploadedFile.file := picked x;
              UploadedFile.preview := objectURL x;
              UploadedFile.base64 := nth_error (JS.split ","%char base64) 1 |}
  | None => None
  end.

(** [Promise.all]: the results in the order of the inputs, or a rejection as
    soon as one input rejects. *)
Fixpoint promise_all {A : Type} (ps : list (option A)) : option (list A) :=
  match ps with
  | [] => Some []
  | p :: rest =>
      match p, promise_all rest with
      | Some v, Some vs => Some (v :: vs)
      | _, _ => None
      end
  end.

(** Lines 82-86, run when the change event fires: the capacity check reads
    the [files] of the render the handler closed over.  [true] means that the
    handler went on to read the files. *)
Definition handleFileChange_begin (s : State) (newFiles : list Picked) : State * bool :=
  if (6 <? List.length (files s) + List.length newFiles)%nat
  then (setError (Some capacity_message) s, false)
  else (s, true).

(** Lines 88-101, run when [Promise.all] has settled, on the state as it is
    then.  A rejected promise leaves the handler before any [setX]. *)
Definition handleFileChange_settled (newFiles : list Picked) (s : State) : State :=
  match promise_all (map processFile newFiles) with
  | Some processedFiles =>
      setError None (setFiles (fun prev => (prev ++ processedFiles)%list) s)
  | None => s
  end.

(** The whole handler when nothing else touches the state during the reads. *)
Definition handleFileChange (newFiles : list Picked) (s : State) : State :=
  match handleFileChange_begin s newFiles with
  | (s', true) => handleFileChange_settled newFiles s'
  | (s', false) => s'
  end.

Definition removeFile (id : string) (s : State) : State :=
  setFiles (fun prev => filter (fun f => negb (String.eqb (UploadedFile.id f) id)) prev) s.

(** ** The generation services, as the handlers see them *)

Module Blob.
Record t := mk { data : option string; mimeType : option string }.
End Blob.

Module Part.
Record t := mk { text : option string; inlineData : option Blob.t }.
End Part.

Module Content.
Record t := mk { parts : option (list Part.t) }.
End Content.

Module Candidate.
Record t := mk { content : option Content.t }.
End Candidate.

Module Response.
Record t := mk { candidates : option (list Candidate.t); text : option string }.
End Response.

Module Request.
(** The argument of [ai.models.generateContent]: [contents] is the part list
    of the image request and the bare prompt of the script request;
    [aspectRatio] is [config.imageConfig.aspectRatio] when given. *)
Inductive contents := Parts (ps : list Part.t) | Prompt (p : string).
Record t := mk { model : string; body : contents; aspectRatio : option string }.
End Request.

Module Err.
(** A caught value.  [nullish] is [undefined] or [null], on which reading
    [.message] throws; any other value has a [message], which is [undefined]
    when the value is not an [Error]. *)
Inductive t :=
| nullish
| mk (message : option string).
End Err.

(** What the [try] block gets from the client: an exception (thrown by the
    constructor or by the call) or the awaited response. *)
Inductive Outcome :=
| Threw (err : Err.t)
| Responded (response : Response.t).

(** ** [generateImage] *)

Definition validation_message : string := "请输入描述或上传图片".
Definition no_image_message : string := "未能生成图片，请重试".
Definition image_error_fallback : string := "生成图片时发生错误".

(** [SCENES.find(s => s.id === selectedScene)?.prompt || ''] and its twin. *)
Definition scene_prompt (s : State) : string :=
  JS.or_else (option_map Preset.prompt (find_preset SCENES (selectedScene s))) EmptyString.

Definition style_prompt (s : State) : string :=
  JS.or_else (option_map Preset.prompt (find_preset STYLES (selectedStyle s))) EmptyString.

(** The template literal of lines 133-136. *)
Definition image_prompt (s : State) : string :=
  "Create a new creative image based on the following description: "
  ++ description s ++ ". " ++ JS.nl
  ++ "      The scene should be " ++ scene_prompt s ++ ". " ++ JS.nl
  ++ "      The overall style should be " ++ style_prompt s ++ ". " ++ JS.nl
  ++ "      If reference images are provided, blend their visual elements, subjects, or color palettes into this new creation.".

Definition file_part (f : UploadedFile.t) : Part.t :=
  Part.mk None
    (Some (Blob.mk (UploadedFile.base64 f) (Some (File.type (UploadedFile.file f))))).

Definition image_parts (s : State) : list Part.t :=
  Part.mk (Some (image_prompt s)) None :: map file_part (files s).

Definition image_request (s : State) : Request.t :=
  Request.mk "gemini-2.5-flash-image" (Request.Parts (image_parts s)) (Some "16:9").

(** [!description && files.length === 0] *)
Definition missing_input (s : State) : bool :=
  negb (JS.truthy (description s)) && (List.length (files s) =? 0)%nat.

(** Lines 118-126 and the construction of the request, run when the button is
    clicked.  [None] means that the handler returned without calling the
    service. *)
Definition generateImage_begin (s : State) : State * option Request.t :=
  if missing_input s
  then (setError (Some validation_message) s, None)
  else (setError None (setVideoScript None (setGeneratedImage None (setIsGenerating true s))),
        Some (image_request s)).

(** [response.candidates?.[0]?.content?.parts || []] *)
Definition response_parts (r : Response.t) : list Part.t :=
  match Response.candidates r with
  | Some cs =>
      match nth_error cs 0 with
      | Some c =>
          match Candidate.content c with
          | Some ct =>
              match Content.parts ct with
              | Some ps => ps
              | None => []
              end
          | None => []
          end
      | None => []
      end
  | None => []
  end.

(** The [for] loop of lines 159-165: the argument of [setGeneratedImage] at
    the first part whose [inlineData] is present, [None] when the loop ends
    with [foundImage] still false. *)
Fixpoint scan_parts (ps : list Part.t) : option string :=
  match ps with
  | [] => None
  | part :: rest =>
      match Part.inlineData part with
      | Some blob => Some ("data:image/png;base64," ++ JS.interpolate (Blob.data blob))
      | None => scan_parts rest
      end
  end.

(** Lines 158-175, run when the call has settled: the rest of the [try]
    block, then [catch], then [finally].  On a caught [undefined] or [null]
    the [catch] block itself throws at [err.message], before [setError]; the
    [finally] block runs all the same. *)
Definition generateImage_settled (o : Outcome) (s : State) : State :=
  let tried : State + Err.t :=
    match o with
    | Threw err => inr err
    | Responded r =>
        match scan_parts (response_parts r) with
        | Some url => inl (setGeneratedImage (Some url) s)
        | None => inr (Err.mk (Some no_image_message))
        end
    end in
  let caught : State :=
    match tried with
    | inl s' => s'
    | inr (Err.mk message) => setError (Some (JS.or_else message image_error_fallback)) s
    | inr Err.nullish => s
    end in
  setIsGenerating false caught.

(** The whole handler when nothing else touches the state during the call. *)
Definition generateImage (o : Outcome) (s : State) : State :=
  match generateImage_begin s with
  | (s', Some _) => generateImage_settled o s'
  | (s', None) => s'
  end.

(** ** [generateVideoScript] *)

Definition script_error_message : string := "生成视频文案时发生错误".
Definition script_fallback : string := "无法生成文案".

(** [SCENES.find(s => s.id === selectedScene)?.label || ''] *)
Definition scene_label (s : State) : string :=
  JS.or_else (option_map Preset.label (find_preset SCENES (selectedScene s))) EmptyString.

(** The template literal of lines 186-194. *)
Definition script_prompt (s : State) : string :=
  "Based on the generated image and the original description " ++ JS.dq
  ++ description s ++ JS.dq ++ " in the " ++ scene_label s ++ " scene, " ++ JS.nl
  ++ "      generate a detailed 5-second video script. " ++ JS.nl
  ++ "      The script should include:" ++ JS.nl
  ++ "      1. Scene Description (Visuals)" ++ JS.nl
  ++ "      2. Camera Movement" ++ JS.nl
  ++ "      3. Lighting & Atmosphere" ++ JS.nl
  ++ "      4. A brief " ++ JS.dq ++ "Action" ++ JS.dq ++ " that happens in these 5 seconds." ++ JS.nl
  ++ "      " ++ JS.nl
  ++ "      Format the output in professional cinematic script style using Markdown. Use Chinese.".

Definition script_request (s : State) : Request.t :=
  Request.mk "gemini-3-flash-preview" (Request.Prompt (script_prompt s)) None.

(** [!generatedImage] *)
Definition no_image (s : State) : bool :=
  match generatedImage s with
  | Some img => negb (JS.truthy img)
  | None => true
  end.

(** Lines 179-181 and the construction of the request. *)
Definition generateVideoScript_begin (s : State) : State * option Request.t :=
  if no_image s then (s, None)
  else (setIsGeneratingScript true s, Some (script_request s)).

(** Lines 201-207, run when the call has settled. *)
Definition generateVideoScript_settled (o : Outcome) (s : State) : State :=
  let caught : State :=
    match o with
    | Responded r => setVideoScript (Some (JS.or_else (Response.text r) script_fallback)) s
    | Threw _ => setError (Some script_error_message) s
    end in
  setIsGeneratingScript false caught.

(** The whole handler when nothing else touches the state during the call. *)
Definition generateVideoScript (o : Outcome) (s : State) : State :=
  match generateVideoScript_begin s with
  | (s', Some _) => generateVideoScript_settled o s'
  | (s', None) => s'
  end.

(** ** The component as an event system

    Between two events the component holds its React state and the handlers
    that are suspended at an [await]: batches being read, image calls and
    script calls in flight.  An event is either a user action on a control
    that the render of the current state offers, or the settling of one of
    the suspended handlers. *)

Record World := mkWorld {
  ui : State;
  reading : list (list Picked);
  imageCalls : list Request.t;
  scriptCalls : list Request.t
}.

Definition boot : World := mkWorld initial [] [] [].

Inductive Event :=
| TypeDescription (v : string)
| ClickScene (id : string)
| ClickStyle (id : string)
| PickFiles (newFiles : list Picked)
| FilesSettled (n : nat)
| ClickRemove (id : string)
| ClickGenerate
| ClickRegenerate
| ImageSettled (n : nat) (o : Outcome)
| ClickGenerateScript
| ScriptSettled (n : nat) (o : Outcome).

(** Take the [n]-th element out of a list. *)
Fixpoint take_out {A : Type} (n : nat) (l : list A) : option (A * list A) :=
  match l, n with
  | [], _ => None
  | x :: rest, O => Some (x, rest)
  | x :: rest, S n' =>
      match take_out n' rest with
      | Some (y, rest') => Some (y, x :: rest')
      | None => None
      end
  end.

Definition has_id (table : list Preset.t) (id : string) : bool :=
  existsb (fun p => String.eqb (Preset.id p) id) table.

Definition stored (id : string) (s : State) : bool :=
  existsb (fun f => String.eqb (UploadedFile.id f) id) (files s).

(** [!videoScript] *)
Definition no_script (s : State) : bool :=
  match videoScript s with
  | Some v => negb (JS.truthy v)
  | None => true
  end.

Definition start_image (w : World) : World :=
  match generateImage_begin (ui w) with
  | (s', Some req) => mkWorld s' (reading w) (imageCalls w ++ [req])%list (scriptCalls w)
  | (s', None) => mkWorld s' (reading w) (imageCalls w) (scriptCalls w)
  end.

Definition start_script (w : World) : World :=
  match generateVideoScript_begin (ui w) with
  | (s', Some req) => mkWorld s' (reading w) (imageCalls w) (scriptCalls w ++ [req])%list
  | (s', None) => mkWorld s' (reading w) (imageCalls w) (scriptCalls w)
  end.

(** One event; [None] when the current render does not offer the control
    (the scene and style buttons come from the tables, a remove button from a
    stored file, the main button carries [disabled={isGenerating}], the
    regenerate button is rendered under [generatedImage &&], the script
    button under [generatedImage &&] and [!videoScript && !isGeneratingScript])
    or when no such handler is suspended. *)
Definition step (w : World) (ev : Event) : option World :=
  match ev with
  | TypeDescription v =>
      Some (mkWorld (setDescription v (ui w)) (reading w) (imageCalls w) (scriptCalls w))
  | ClickScene id =>
      if has_id SCENES id
      then Some (mkWorld (setSelectedScene id (ui w)) (reading w) (imageCalls w) (scriptCalls w))
      else None
  | ClickStyle id =>
      if has_id STYLES id
      then Some (mkWorld (setSelectedStyle id (ui w)) (reading w) (imageCalls w) (scriptCalls w))
      else None
  | PickFiles newFiles =>
      match handleFileChange_begin (ui w) newFiles with
      | (s', true) => Some (mkWorld s' (reading w ++ [newFiles])%list (imageCalls w) (scriptCalls w))
      | (s', false) => Some (mkWorld s' (reading w) (imageCalls w) (scriptCalls w))
      end
  | FilesSettled n =>
      match take_out n (reading w) with
      | Some (newFiles, rest) =>
          Some (mkWorld (handleFileChange_settled newFiles (ui w)) rest (imageCalls w) (scriptCalls w))
      | None => None
      end
  | ClickRemove id =>
      if stored id (ui w)
      then Some (mkWorld (removeFile id (ui w)) (reading w) (imageCalls w) (scriptCalls w))
      else None
  | ClickGenerate =>
      if isGenerating (ui w) then None else Some (start_image w)
  | ClickRegenerate =>
      if no_image (ui w) then None else Some (start_image w)
  | ImageSettled n o =>
      match take_out n (imageCalls w) with
      | Some (_, rest) =>
          Some (mkWorld (generateImage_settled o (ui w)) (reading w) rest (scriptCalls w))
      | None => None
      end
  | ClickGenerateScript =>
      if no_image (ui w) || negb (no_script (ui w)) || isGeneratingScript (ui w)
      then None else Some (start_script w)
  | ScriptSettled n o =>
      match take_out n (scriptCalls w) with
      | Some (_, rest) =>
          Some (mkWorld (generateVideoScript_settled o (ui w)) (reading w) (imageCalls w) rest)
      | None => None
      end
  end.

(** A run: the events of a trace in order; [None] as soon as one of them
    cannot occur. *)
Fixpoint run (w : World) (trace : list Event) : option World :=
  match trace with
  | [] => Some w
  | ev :: rest =>
      match step w ev with
      | Some w' => run w' rest
      | None => None
      end
  end.

Definition reachable (w : World) : Prop := exists trace, run boot trace = Some w.

(** ** Ids drawn and ids stored *)

(** The ids that [processFile] gives to the files of a batch. *)
Definition batch_ids (newFiles : list Picked) : list string :=
  map (fun x => JS.substr (random_toString36 x) 2 9) newFiles.

(** The ids of all the files picked along a trace. *)
Definition trace_ids (trace : list Event) : list string :=
  flat_map (fun ev => match ev with
                      | PickFiles newFiles => batch_ids newFiles
                      | _ => []
                      end) trace.

Definition store_ids (s : State) : list string := map UploadedFile.id (files s).

Definition reading_ids (w : World) : list string := flat_map batch_ids (reading w).

(** How often an id occurs among the stored entries, the batches being read
    and the files still to be picked along a trace. *)
Definition occurrences (w : World) (trace : list Event) (x : string) : nat :=
  count_occ string_dec (store_ids (ui w)) x
  + count_occ string_dec (reading_ids w) x
  + count_occ string_dec (trace_ids trace) x.

(** ** Calls in flight *)

(** At most one image call is in flight, and while it is the busy flag is up
    and no generated image is held. *)
Definition image_call_inv (w : World) : Prop :=
  imageCalls w = []
  \/ exists req,
       imageCalls w = [req]
       /\ isGenerating (ui w) = true
       /\ generatedImage (ui w) = None.

(** At most one script call is in flight, and while it is the busy flag is up
    and no script is held; a script that is held is never the empty string. *)
Definition script_call_inv (w : World) : Prop :=
  (scriptCalls w = [] /\ isGeneratingScript (ui w) = false
   \/ exists req,
        scriptCalls w = [req]
        /\ isGeneratingScript (ui w) = true
        /\ videoScript (ui w) = None)
  /\ forall v, videoScript (ui w) = Some v -> v <> EmptyString.

(** ** Runs without overlap *)

(** A batch is picked only when no batch is being read. *)
Definition picks_apart (w : World) (ev : Event) : bool :=
  match ev with
  | PickFiles _ => match reading w with [] => true | _ :: _ => false end
  | _ => true
  end.

(** A generation attempt starts only when no script call is in flight. *)
Definition attempts_apart (w : World) (ev : Event) : bool :=
  match ev with
  | ClickGenerate | ClickRegenerate =>
      match scriptCalls w with [] => true | _ :: _ => false end
  | _ => true
  end.

(** A run all of whose events satisfy [ok] in the world they occur in. *)
Fixpoint run_if (ok : World -> Event -> bool) (w : World) (trace : list Event) : option World :=
  match trace with
  | [] => Some w
  | ev :: rest =>
      if ok w ev then
        match step w ev with
        | Some w' => run_if ok w' rest
        | None => None
        end
      else None
  end.

(** The entries stored and the files of the batches being read. *)
Definition admitted (w : World) : nat :=
  List.length (files (ui w)) + List.length (concat (reading w)).

(** A script is held, or awaited, only together with a generated image. *)
Definition script_has_image (w : World) : Prop :=
  (videoScript (ui w) <> None \/ scriptCalls w <> []) -> no_image (ui w) = false.

(** ** [downloadImage], [copyToClipboard] *)

Definition setCopied (v : bool) (s : State) : State :=
  mkState (files s) (description s) (selectedScene s) (selectedStyle s)
    (isGenerating s) (generatedImage s) (videoScript s) (isGeneratingScript s)
    v (error s).

(** [`${Date.now()}`]: the decimal digits of an integer time value, with a
    minus sign when it is negative. *)
Definition number_to_string (n : Z) : string :=
  NilEmpty.string_of_int (Z.to_int n).

(** The anchor element that [downloadImage] builds and clicks. *)
Module Anchor.
Record t := mk { href : string; download : string }.
End Anchor.

(** Lines 210-216; [now] is the value of [Date.now()].  [None] means that
    the handler returned at its guard. *)
Definition downloadImage (now : Z) (s : State) : option Anchor.t :=
  match generatedImage s with
  | Some image =>
      if JS.truthy image
      then Some (Anchor.mk image ("vision-ai-" ++ number_to_string now ++ ".png"))
      else None
  | None => None
  end.

(** Lines 218-223: the state after the handler, and the text handed to
    [navigator.clipboard.writeText] together with the delay of the timer it
    sets; [None] means that the handler returned at its guard. *)
Definition copyToClipboard (s : State) : State * option (string * nat) :=
  match videoScript s with
  | Some script =>
      if JS.truthy script
      then (setCopied true s, Some (script, 2000))
      else (s, None)
  | None => (s, None)
  end.

(** The callback of that timer. *)
Definition copied_timeout (s : State) : State := setCopied false s.

(** ** What the render shows

    The conditions of the JSX, as functions of the state. *)

(** [{error && ...}] *)
Definition error_banner (s : State) : option string :=
  match error s with
  | Some e => if JS.truthy e then Some e else None
  | None => None
  end.

(** The result card: [!generatedImage && !isGenerating], [isGenerating],
    [generatedImage]. *)
Definition image_placeholder (s : State) : bool := no_image s && negb (isGenerating s).
Definition image_spinner (s : State) : bool := isGenerating s.
Definition image_shown (s : State) : bool := negb (no_image s).

(** The script panel is rendered under [generatedImage &&]. *)
Definition script_panel (s : State) : bool := negb (no_image s).

(** The control in the header of the script panel:
    [!videoScript && !isGeneratingScript ? (button) : videoScript && (copy)]. *)
Inductive ScriptControl :=
| GenerateScriptButton
| CopyButton (label : string)
| NoControl.

Definition script_control (s : State) : ScriptControl :=
  if no_script s && negb (isGeneratingScript s) then GenerateScriptButton
  else if no_script s then NoControl
  else CopyButton (if copied s then "已复制" else "复制脚本").

(** The body of the script panel:
    [isGeneratingScript ? (spinner) : videoScript ? (script) : (hint)]. *)
Inductive ScriptBody :=
| ScriptSpinner
| ScriptText (markdown : string)
| ScriptHint.

Definition script_body (s : State) : ScriptBody :=
  if isGeneratingScript s then ScriptSpinner
  else match videoScript s with
       | Some v => if JS.truthy v then ScriptText v else ScriptHint
       | None => ScriptHint
       end.

(** ** The event system with the copy button

    The events of [World], the click on the copy button (offered when the
    script panel is rendered with a script) and the firing of one of the
    timers set by [copyToClipboard]. *)

Record Desk := mkDesk {
  world : World;
  copyTimers : nat
}.

Inductive Gesture :=
| Core (ev : Event)
| ClickCopy
| CopyTimerFires.

Definition with_ui (s : State) (w : World) : World :=
  mkWorld s (reading w) (imageCalls w) (scriptCalls w).

Definition desk_step (d : Desk) (g : Gesture) : option Desk :=
  match g with
  | Core ev =>
      match step (world d) ev with
      | Some w' => Some (mkDesk w' (copyTimers d))
      | None => None
      end
  | ClickCopy =>
      if no_image (ui (world d)) || no_script (ui (world d)) then None
      else Some (mkDesk (with_ui (fst (copyToClipboard (ui (world d)))) (world d))
                   (S (copyTimers d)))
  | CopyTimerFires =>
      match copyTimers d with
      | O => None
      | S n => Some (mkDesk (with_ui (copied_timeout (ui (world d))) (world d)) n)
      end
  end.

Fixpoint desk_run (d : Desk) (gs : list Gesture) : option Desk :=
  match gs with
  | [] => Some d
  | g :: rest =>
      match desk_step d g with
      | Some d' => desk_run d' rest
      | None => None
      end
  end.

Definition desk_boot : Desk := mkDesk boot 0.

(** ** Invariants of the runs *)

(** No image call is in flight and the busy flag is down, or one image call
    is in flight, the busy flag is up and no generated image is held. *)
Definition image_busy_inv (w : World) : Prop :=
  (imageCalls w = [] /\ isGenerating (ui w) = false)
  \/ exists req,
       imageCalls w = [req]
       /\ isGenerating (ui w) = true
       /\ generatedImage (ui w) = None.

(** The selected scene and style are rows of their tables. *)
Definition selection_inv (w : World) : Prop :=
  has_id SCENES (selectedScene (ui w)) = true
  /\ has_id STYLES (selectedStyle (ui w)) = true.

(** A generated image that is held is a PNG data URI. *)
Definition image_uri_inv (w : World) : Prop :=
  forall image, generatedImage (ui w) = Some image ->
                exists data, image = "data:image/png;base64," ++ data.

(** ** Sample data *)

(** A state used to exercise the theorems: two uploads, a description, the
    city scene and the anime style. *)
Definition two_uploads : list UploadedFile.t :=
  [ UploadedFile.mk "k3j9x0a1b" (File.mk "a.png" "image/png") "blob:a" (Some "QUJD");
    UploadedFile.mk "z81hq02mc" (File.mk "b.jpg" "image/jpeg") "blob:b" (Some "REVG") ].

Definition robot : State :=
  setSelectedStyle "anime"
    (setDescription "a robot reading a book"
       (setFiles (fun _ => two_uploads) initial)).

Definition respond (ps : list Part.t) : Response.t :=
  Response.mk (Some [Candidate.mk (Some (Content.mk (Some ps)))]) None.

Definition text_part (t : string) : Part.t := Part.mk (Some t) None.
Definition inline_part (d : string) : Part.t :=
  Part.mk None (Some (Blob.mk (Some d) (Some "image/png"))).

Definition pictured : State :=
  setGeneratedImage (Some "data:image/png;base64,iVBORw0K") robot.

Definition off_table : State :=
  setSelectedStyle "watercolor" (setSelectedScene "desert" pictured).

(** A readable picked file, with the string that [Math.random().toString(36)]
    gave for it, and one whose read fails. *)
Definition png (name rnd : string) : Picked :=
  mkPicked (File.mk name "image/png") (Some "data:image/png;base64,QUJD") rnd
    ("blob:" ++ name).

Definition unreadable : Picked :=
  mkPicked (File.mk "gone.png" "image/png") None "0.4fzyo82mvyr" "blob:gone".

Definition four_a : list Picked :=
  [ png "a1.png" "0.q1w2e3r4t5y"; png "a2.png" "0.a9s8d7f6g5h";
    png "a3.png" "0.z1x2c3v4b5n"; png "a4.png" "0.p0o9i8u7y6t" ].

Definition four_b : list Picked :=
  [ png "b1.png" "0.m1n2b3v4c5x"; png "b2.png" "0.l9k8j7h6g5f";
    png "b3.png" "0.r4e3w2q1a0s"; png "b4.png" "0.u7y6t5r4e3w" ].

(** Two files for which [Math.random()] returned two numbers whose base-36
    digits differ only after the ninth. *)
Definition twins : list Picked :=
  [ png "t1.png" "0.4fzyo82mvyr"; png "t2.png" "0.4fzyo82mvzz" ].

Definition city_day : Response.t := Response.mk None (Some "INT. CITY — DAY...").

Definition upload_session : list Event :=
  [ PickFiles four_a; FilesSettled 0; ClickRemove "a9s8d7f6g";
    PickFiles [png "b1.png" "0.m1n2b3v4c5x"; png "b2.png" "0.l9k8j7h6g5f"];
    FilesSettled 0 ].

(** More sample data: a store of three uploads, one picked file with a
    well-formed data URL, one whose data URL has no comma. *)
Definition three_uploads : State :=
  setFiles (fun _ =>
              [ UploadedFile.mk "k3j9x0a1b" (File.mk "a.png" "image/png") "blob:a" (Some "QUJD");
                UploadedFile.mk "z81hq02mc" (File.mk "b.jpg" "image/jpeg") "blob:b" (Some "REVG");
                UploadedFile.mk "w5e4r3t2y" (File.mk "c.gif" "image/gif") "blob:c" (Some "R0lG") ])
    initial.

Definition webp : Picked :=
  mkPicked (File.mk "d.webp" "image/webp") (Some "data:image/webp;base64,UklGRg==")
    "0.h7g6f5d4s3a" "blob:d".

Definition bare : Picked :=
  mkPicked (File.mk "empty.png" "image/png") (Some "data:") "0.e2r3t4y5u6i" "blob:e".

(** A session that generates an image and a script for it. *)
Definition picture_session : list Event :=
  [ TypeDescription "a robot reading a book"; ClickScene "space"; ClickStyle "oil";
    ClickGenerate;
    ImageSettled 0 (Responded (respond [text_part "here"; inline_part "iVBORw0K"]));
    ClickGenerateScript;
    ScriptSettled 0 (Responded city_day) ].

(** The world in which the first generation attempt of a session is in
    flight, and the world in which a script call for its image is. *)
Definition awaiting_image : World :=
  Eval vm_compute in
    match run boot [TypeDescription "a robot reading a book"; ClickGenerate] with
    | Some w => w
    | None => boot
    end.

Definition awaiting_script : World :=
  Eval vm_compute in
    match run boot [ TypeDescription "a robot reading a book"; ClickGenerate;
                     ImageSettled 0 (Responded (respond [inline_part "iVBORw0K"]));
                     ClickGenerateScript ] with
    | Some w => w
    | None => boot
    end.

Definition with_script : World :=
  Eval vm_compute in
    match run boot picture_session with
    | Some w => w
    | None => boot
    end.

(** The session above, then two clicks on the copy button, the timer of the
    first and a third click. *)
Definition copy_gestures : list Gesture :=
  (map Core picture_session ++ [ClickCopy; ClickCopy; CopyTimerFires; ClickCopy])%list.

Definition after_copy : Desk :=
  Eval vm_compute in
    match desk_run desk_boot copy_gestures with
    | Some d => d
    | None => desk_boot
    end.

(** * Properties *)

(** ** Strings and lists *)

Lemma append_assoc (a b c : string) : (a ++ b) ++ c = a ++ b ++ c.
Proof.
  induction a as [|ch a IH]; simpl.
  - reflexivity.
  - now rewrite IH.
Qed.

Lemma includes_middle (before needle after : string) :
  JS.includes (before ++ needle ++ after) needle.
Proof. now exists before, after. Qed.

Lemma truthy_not_empty (v : string) : JS.truthy v = true <-> v <> EmptyString.
Proof.
  destruct v; simpl; split; intro H; try reflexivity; try discriminate.
  now contradiction H.
Qed.

Lemma or_else_truthy (v d : string) :
  v <> EmptyString -> JS.or_else (Some v) d = v.
Proof.
  intro H. unfold JS.or_else. apply truthy_not_empty in H. now rewrite H.
Qed.

(** ** The preset tables *)

Lemma find_preset_in (table : list Preset.t) (id : string) (p : Preset.t) :
  find_preset table id = Some p -> In p table /\ Preset.id p = id.
Proof.
  unfold find_preset. intro H. apply find_some in H.
  destruct H as [Hin Heq]. split; [assumption|]. now apply String.eqb_eq.
Qed.

Lemma find_preset_absent (table : list Preset.t) (id : string) :
  ~ In id (map Preset.id table) -> find_preset table id = None.
Proof.
  intro H. destruct (find_preset table id) as [p|] eqn:E; [|reflexivity].
  apply find_preset_in in E. destruct E as [Hin Heq].
  exfalso. apply H. rewrite <- Heq. now apply in_map.
Qed.

Lemma SCENES_prompts_truthy :
  Forall (fun p => Preset.prompt p <> EmptyString /\ Preset.label p <> EmptyString) SCENES.
Proof. unfold SCENES. repeat constructor; discriminate. Qed.

Lemma STYLES_prompts_truthy :
  Forall (fun p => Preset.prompt p <> EmptyString /\ Preset.label p <> EmptyString) STYLES.
Proof. unfold STYLES. repeat constructor; discriminate. Qed.

Lemma scene_prompt_found (s : State) (p : Preset.t) :
  find_preset SCENES (selectedScene s) = Some p -> scene_prompt s = Preset.prompt p.
Proof.
  intro H. unfold scene_prompt. rewrite H. simpl.
  apply or_else_truthy. apply find_preset_in in H. destruct H as [Hin _].
  pose proof SCENES_prompts_truthy as F. rewrite Forall_forall in F.
  now apply F.
Qed.

Lemma style_prompt_found (s : State) (p : Preset.t) :
  find_preset STYLES (selectedStyle s) = Some p -> style_prompt s = Preset.prompt p.
Proof.
  intro H. unfold style_prompt. rewrite H. simpl.
  apply or_else_truthy. apply find_preset_in in H. destruct H as [Hin _].
  pose proof STYLES_prompts_truthy as F. rewrite Forall_forall in F.
  now apply F.
Qed.

(** ** [generateImage]: the request *)

Lemma image_prompt_includes (s : State) :
  JS.includes (image_prompt s) (description s)
  /\ JS.includes (image_prompt s) (scene_prompt s)
  /\ JS.includes (image_prompt s) (style_prompt s).
Proof.
  unfold image_prompt. repeat split.
  - apply includes_middle.
  - set (a := "Create a new creative image based on the following description: ").
    set (b := "      The scene should be ").
    exists (a ++ description s ++ ". " ++ JS.nl ++ b).
    eexists. repeat rewrite append_assoc. reflexivity.
  - set (a := "Create a new creative image based on the following description: ").
    set (b := "      The scene should be ").
    set (c := "      The overall style should be ").
    exists (a ++ description s ++ ". " ++ JS.nl ++ b ++ scene_prompt s ++ ". " ++ JS.nl ++ c).
    eexists. repeat rewrite append_assoc. reflexivity.
Qed.

Lemma generateImage_begin_valid (s : State) :
  missing_input s = false ->
  generateImage_begin s =
    (setError None (setVideoScript None (setGeneratedImage None (setIsGenerating true s))),
     Some (image_request s)).
Proof. intro H. unfold generateImage_begin. now rewrite H. Qed.

Lemma missing_input_spec (s : State) :
  missing_input s = true <-> description s = EmptyString /\ files s = [].
Proof.
  unfold missing_input. rewrite andb_true_iff, negb_true_iff, Nat.eqb_eq.
  split; intros [H1 H2]; split.
  - destruct (description s); [reflexivity|discriminate].
  - now apply length_zero_iff_nil.
  - now rewrite H1.
  - now rewrite H2.
Qed.

(** C2: when [generateImage] calls the service, the request it sends holds
    one text part, the instruction, followed by one inline part per stored
    upload, in the order of the store, each carrying that upload's base64
    payload and the media type of its file; the instruction contains the
    description and the prompt fragments of the selected scene and style. *)
Theorem generateImage_request_contents (s : State) :
  missing_input s = false ->
  exists req,
    snd (generateImage_begin s) = Some req
    /\ Request.body req =
         Request.Parts
           (Part.mk (Some (image_prompt s)) None
            :: map (fun f =>
                      Part.mk None
                        (Some (Blob.mk (UploadedFile.base64 f)
                                 (Some (File.type (UploadedFile.file f))))))
                 (files s))
    /\ JS.includes (image_prompt s) (description s)
    /\ JS.includes (image_prompt s) (scene_prompt s)
    /\ JS.includes (image_prompt s) (style_prompt s)
    /\ (forall p, find_preset SCENES (selectedScene s) = Some p ->
                  JS.includes (image_prompt s) (Preset.prompt p))
    /\ (forall p, find_preset STYLES (selectedStyle s) = Some p ->
                  JS.includes (image_prompt s) (Preset.prompt p)).
Proof.
  intro Hvalid. exists (image_request s).
  rewrite (generateImage_begin_valid s Hvalid).
  destruct (image_prompt_includes s) as (Hd & Hsc & Hst).
  repeat split; try assumption.
  - intros p Hp. now rewrite <- (scene_prompt_found s p Hp).
  - intros p Hp. now rewrite <- (style_prompt_found s p Hp).
Qed.

Lemma generateImage_request_contents_witness :
  exists req,
    snd (generateImage_begin robot) = Some req
    /\ Request.body req =
         Request.Parts
           [ Part.mk (Some (image_prompt robot)) None;
             Part.mk None (Some (Blob.mk (Some "QUJD") (Some "image/png")));
             Part.mk None (Some (Blob.mk (Some "REVG") (Some "image/jpeg"))) ]
    /\ JS.includes (image_prompt robot)
         "in a bustling city street with skyscrapers and traffic"
    /\ JS.includes (image_prompt robot) "high-quality anime illustration style".
Proof.
  destruct (generateImage_request_contents robot eq_refl)
    as (req & Hreq & Hbody & _ & _ & _ & Hscene & Hstyle).
  exists req. split; [exact Hreq|]. split; [exact Hbody|]. split.
  - exact (Hscene _ eq_refl).
  - exact (Hstyle _ eq_refl).
Defined.

(** C3: with an empty description and no uploads, [generateImage] reports the
    validation error, changes nothing else and does not call the service;
    with a non-empty description or at least one upload it passes the check
    and issues its request. *)
Theorem generateImage_validation (s : State) :
  (description s = EmptyString -> files s = [] ->
     generateImage_begin s = (setError (Some validation_message) s, None)
     /\ forall o, generateImage o s = setError (Some validation_message) s)
  /\ (description s <> EmptyString \/ files s <> [] ->
     generateImage_begin s =
       (setError None (setVideoScript None (setGeneratedImage None (setIsGenerating true s))),
        Some (image_request s))).
Proof.
  split.
  - intros Hd Hf.
    assert (Hm : missing_input s = true) by now apply missing_input_spec.
    unfold generateImage, generateImage_begin. rewrite Hm. now split.
  - intro H. apply generateImage_begin_valid.
    destruct (missing_input s) eqn:Hm; [|reflexivity].
    apply missing_input_spec in Hm. destruct Hm as [Hd Hf].
    destruct H as [H|H]; now contradiction H.
Qed.

Lemma generateImage_validation_witness :
  (snd (generateImage_begin initial) = None
   /\ error (fst (generateImage_begin initial)) = Some validation_message)
  /\ snd (generateImage_begin robot) = Some (image_request robot)
  /\ snd (generateImage_begin (setDescription "a cat" initial))
     = Some (image_request (setDescription "a cat" initial)).
Proof.
  split; [|split].
  - destruct (proj1 (generateImage_validation initial) eq_refl eq_refl) as [H _].
    rewrite H. split; reflexivity.
  - rewrite (proj2 (generateImage_validation robot)); [reflexivity|].
    right. discriminate.
  - rewrite (proj2 (generateImage_validation (setDescription "a cat" initial)));
      [reflexivity|].
    left. discriminate.
Defined.

(** ** [generateImage]: the response *)

Lemma scan_parts_first (before after : list Part.t) (part : Part.t) (blob : Blob.t) :
  Forall (fun p => Part.inlineData p = None) before ->
  Part.inlineData part = Some blob ->
  scan_parts (before ++ part :: after)%list
  = Some ("data:image/png;base64," ++ JS.interpolate (Blob.data blob)).
Proof.
  intros Hbefore Hpart. induction Hbefore as [|p before Hp _ IH]; simpl.
  - now rewrite Hpart.
  - now rewrite Hp.
Qed.

Lemma scan_parts_none (ps : list Part.t) :
  Forall (fun p => Part.inlineData p = None) ps <-> scan_parts ps = None.
Proof.
  split.
  - intro H. induction H as [|p ps Hp _ IH]; simpl; [reflexivity|]. now rewrite Hp.
  - induction ps as [|p ps IH]; simpl; intro H; [constructor|].
    destruct (Part.inlineData p) eqn:E; [discriminate|].
    constructor; [assumption|now apply IH].
Qed.

Lemma generateImage_settled_no_image (o : Outcome) (s : State) :
  (forall r, o = Responded r -> scan_parts (response_parts r) = None) ->
  generatedImage (generateImage_settled o s) = generatedImage s.
Proof.
  intro H. unfold generateImage_settled.
  destruct o as [[|message]|r]; try reflexivity.
  now rewrite (H r eq_refl).
Qed.

(** C1: a call of [generateImage] that reached the service and got a response
    takes the first part of the response's part list whose [inlineData] is
    present: the generated image becomes the [data:image/png;base64,] URI of
    that part's data and no error is reported; when no part has [inlineData],
    the error is the no-image message and the generated image stays unset. *)
Theorem generateImage_first_inline_part (r : Response.t) (s : State) :
  missing_input s = false ->
  (forall before part blob after,
      response_parts r = (before ++ part :: after)%list ->
      Forall (fun p => Part.inlineData p = None) before ->
      Part.inlineData part = Some blob ->
      generatedImage (generateImage (Responded r) s)
      = Some ("data:image/png;base64," ++ JS.interpolate (Blob.data blob))
      /\ error (generateImage (Responded r) s) = None)
  /\ (Forall (fun p => Part.inlineData p = None) (response_parts r) ->
      generatedImage (generateImage (Responded r) s) = None
      /\ error (generateImage (Responded r) s) = Some no_image_message).
Proof.
  intro Hvalid. unfold generateImage.
  rewrite (generateImage_begin_valid s Hvalid). unfold generateImage_settled.
  split.
  - intros before part blob after Hparts Hbefore Hpart.
    rewrite Hparts, (scan_parts_first before after part blob Hbefore Hpart).
    split; reflexivity.
  - intro Hnone. apply scan_parts_none in Hnone. rewrite Hnone.
    split; reflexivity.
Qed.

Lemma generateImage_first_inline_part_witness :
  (generatedImage
     (generateImage
        (Responded (respond [text_part "here it is"; inline_part "iVBORw0K"; inline_part "AAAA"]))
        robot)
   = Some "data:image/png;base64,iVBORw0K")
  /\ (generatedImage (generateImage (Responded (respond [text_part "sorry"])) robot) = None
      /\ error (generateImage (Responded (respond [text_part "sorry"])) robot)
         = Some no_image_message).
Proof.
  split.
  - refine (proj1 (proj1 (generateImage_first_inline_part
                            (respond [text_part "here it is"; inline_part "iVBORw0K";
                                      inline_part "AAAA"])
                            robot eq_refl)
                     [text_part "here it is"] (inline_part "iVBORw0K")
                     (Blob.mk (Some "iVBORw0K") (Some "image/png"))
                     [inline_part "AAAA"] eq_refl _ eq_refl)).
    repeat constructor.
  - refine (proj2 (generateImage_first_inline_part (respond [text_part "sorry"])
                     robot eq_refl) _).
    repeat constructor.
Defined.

(** ** [generateVideoScript] *)

(** C7: when no generated image exists, [generateVideoScript] returns at
    once: it builds no request and the state is the one it started from,
    whatever the service would have answered. *)
Theorem generateVideoScript_without_image (s : State) :
  generatedImage s = None ->
  generateVideoScript_begin s = (s, None)
  /\ forall o, generateVideoScript o s = s.
Proof.
  intro H. unfold generateVideoScript, generateVideoScript_begin, no_image.
  rewrite H. now split.
Qed.

Lemma generateVideoScript_without_image_witness :
  generateVideoScript_begin robot = (robot, None)
  /\ forall o, generateVideoScript o robot = robot.
Proof. exact (generateVideoScript_without_image robot eq_refl). Defined.

(** C8: a script call that got a response stores the response's text as the
    script when that text is present and not empty, and the placeholder
    otherwise; a script call that threw reports the script error and leaves
    the script as it was, so unset when it was unset. *)
Theorem generateVideoScript_result (s : State) :
  no_image s = false ->
  (forall r t, Response.text r = Some t -> t <> EmptyString ->
      videoScript (generateVideoScript (Responded r) s) = Some t)
  /\ (forall r, Response.text r = None \/ Response.text r = Some EmptyString ->
      videoScript (generateVideoScript (Responded r) s) = Some script_fallback)
  /\ (forall err,
      error (generateVideoScript (Threw err) s) = Some script_error_message
      /\ videoScript (generateVideoScript (Threw err) s) = videoScript s
      /\ (videoScript s = None -> videoScript (generateVideoScript (Threw err) s) = None)).
Proof.
  intro Himg. unfold generateVideoScript, generateVideoScript_begin.
  rewrite Himg. unfold generateVideoScript_settled. simpl. repeat split.
  - intros r t Ht Hne. rewrite Ht. now rewrite or_else_truthy.
  - intros r [Ht|Ht]; now rewrite Ht.
  - trivial.
Qed.

Lemma generateVideoScript_result_witness :
  videoScript (generateVideoScript (Responded (Response.mk None (Some "INT. CITY — DAY..."))) pictured)
  = Some "INT. CITY — DAY..."
  /\ videoScript (generateVideoScript (Responded (Response.mk None None)) pictured)
     = Some script_fallback
  /\ (error (generateVideoScript (Threw (Err.mk (Some "fetch failed"))) pictured)
      = Some script_error_message
      /\ videoScript (generateVideoScript (Threw (Err.mk (Some "fetch failed"))) pictured)
         = None).
Proof.
  pose proof (generateVideoScript_result pictured eq_refl) as (Htext & Hnone & Hthrew).
  split; [|split].
  - apply (Htext (Response.mk None (Some "INT. CITY — DAY...")) _ eq_refl). discriminate.
  - apply (Hnone (Response.mk None None)). now left.
  - destruct (Hthrew (Err.mk (Some "fetch failed"))) as (He & _ & Hv).
    split; [exact He|exact (Hv eq_refl)].
Defined.

(** ** Selections outside the tables *)

(** C10: whatever the selected scene and style ids are, both handlers build
    their request as soon as their guard lets them through, and the request
    carries the instruction built from the template.  When the selected scene
    id is in no row of [SCENES], the scene fragment and the scene label are
    the empty string, and the instructions are the templates with nothing in
    the place of the scene: the image instruction reads "The scene should be
    . " and the script instruction reads " in the  scene, ".  When the
    selected style id is in no row of [STYLES], the style fragment is the
    empty string and the image instruction reads "The overall style should
    be . ". *)
Theorem prompts_with_unknown_selection (s : State) :
  (missing_input s = false ->
     snd (generateImage_begin s) = Some (image_request s)
     /\ Request.body (image_request s)
        = Request.Parts (Part.mk (Some (image_prompt s)) None :: map file_part (files s)))
  /\ (no_image s = false ->
      snd (generateVideoScript_begin s) = Some (script_request s)
      /\ Request.body (script_request s) = Request.Prompt (script_prompt s))
  /\ (~ In (selectedScene s) (map Preset.id SCENES) ->
      scene_prompt s = EmptyString
      /\ scene_label s = EmptyString
      /\ image_prompt s
         = "Create a new creative image based on the following description: "
           ++ description s ++ ". " ++ JS.nl
           ++ "      The scene should be . " ++ JS.nl
           ++ "      The overall style should be " ++ style_prompt s ++ ". " ++ JS.nl
           ++ "      If reference images are provided, blend their visual elements, subjects, or color palettes into this new creation."
      /\ script_prompt s
         = "Based on the generated image and the original description " ++ JS.dq
           ++ description s ++ JS.dq ++ " in the  scene, " ++ JS.nl
           ++ "      generate a detailed 5-second video script. " ++ JS.nl
           ++ "      The script should include:" ++ JS.nl
           ++ "      1. Scene Description (Visuals)" ++ JS.nl
           ++ "      2. Camera Movement" ++ JS.nl
           ++ "      3. Lighting & Atmosphere" ++ JS.nl
           ++ "      4. A brief " ++ JS.dq ++ "Action" ++ JS.dq
           ++ " that happens in these 5 seconds." ++ JS.nl
           ++ "      " ++ JS.nl
           ++ "      Format the output in professional cinematic script style using Markdown. Use Chinese.")
  /\ (~ In (selectedStyle s) (map Preset.id STYLES) ->
      style_prompt s = EmptyString
      /\ image_prompt s
         = "Create a new creative image based on the following description: "
           ++ description s ++ ". " ++ JS.nl
           ++ "      The scene should be " ++ scene_prompt s ++ ". " ++ JS.nl
           ++ "      The overall style should be . " ++ JS.nl
           ++ "      If reference images are provided, blend their visual elements, subjects, or color palettes into this new creation.").
Proof.
  split; [|split; [|split]].
  - intro H. now rewrite generateImage_begin_valid.
  - intro H. unfold generateVideoScript_begin. now rewrite H.
  - intro H.
    assert (Hprompt : scene_prompt s = EmptyString).
    { unfold scene_prompt. now rewrite (find_preset_absent SCENES _ H). }
    assert (Hlabel : scene_label s = EmptyString).
    { unfold scene_label. now rewrite (find_preset_absent SCENES _ H). }
    split; [exact Hprompt|]. split; [exact Hlabel|]. split.
    + unfold image_prompt. now rewrite Hprompt.
    + unfold script_prompt. now rewrite Hlabel.
  - intro H.
    assert (Hprompt : style_prompt s = EmptyString).
    { unfold style_prompt. now rewrite (find_preset_absent STYLES _ H). }
    split; [exact Hprompt|]. unfold image_prompt. now rewrite Hprompt.
Qed.

Lemma prompts_with_unknown_selection_witness :
  (scene_prompt off_table = EmptyString /\ scene_label off_table = EmptyString)
  /\ style_prompt off_table = EmptyString
  /\ image_prompt off_table
     = "Create a new creative image based on the following description: a robot reading a book. "
       ++ JS.nl ++ "      The scene should be . "
       ++ JS.nl ++ "      The overall style should be . "
       ++ JS.nl ++ "      If reference images are provided, blend their visual elements, subjects, or color palettes into this new creation."
  /\ JS.includes (script_prompt off_table) " in the  scene, "
  /\ (snd (generateImage_begin off_table) = Some (image_request off_table)
      /\ Request.body (image_request off_table)
         = Request.Parts (Part.mk (Some (image_prompt off_table)) None
                          :: map file_part (files off_table)))
  /\ (snd (generateVideoScript_begin off_table) = Some (script_request off_table)
      /\ Request.body (script_request off_table) = Request.Prompt (script_prompt off_table)).
Proof.
  pose proof (prompts_with_unknown_selection off_table) as (Hi & Hs & Hscene & Hstyle).
  assert (Hno_scene : ~ In (selectedScene off_table) (map Preset.id SCENES)).
  { simpl. intros H. repeat (destruct H as [H|H]; [discriminate H|]). exact H. }
  assert (Hno_style : ~ In (selectedStyle off_table) (map Preset.id STYLES)).
  { simpl. intros H. repeat (destruct H as [H|H]; [discriminate H|]). exact H. }
  destruct (Hscene Hno_scene) as (Hp & Hl & Himage & Hscript).
  destruct (Hstyle Hno_style) as (Hq & _).
  split; [now split|]. split; [exact Hq|]. split.
  - rewrite Himage, Hq. reflexivity.
  - split.
    + rewrite Hscript.
      exists ("Based on the generated image and the original description " ++ JS.dq
              ++ description off_table ++ JS.dq).
      eexists. reflexivity.
    + split; [exact (Hi eq_refl)|exact (Hs eq_refl)].
Defined.

(** ** The upload store *)

Lemma promise_all_Forall2 {A B : Type} (f : A -> option B) (xs : list A) (ys : list B) :
  promise_all (map f xs) = Some ys <-> Forall2 (fun x y => f x = Some y) xs ys.
Proof.
  revert ys. induction xs as [|x xs IH]; intro ys; simpl.
  - split; intro H.
    + injection H as <-. constructor.
    + now inversion H.
  - split; intro H.
    + destruct (f x) as [y|] eqn:Hx; [|discriminate].
      destruct (promise_all (map f xs)) as [ys'|] eqn:Hxs; [|discriminate].
      injection H as <-. constructor; [assumption|]. now apply IH.
    + inversion H as [|x' y xs' ys' Hx Hrest]; subst.
      rewrite Hx. apply IH in Hrest. now rewrite Hrest.
Qed.

Lemma promise_all_rejects {A B : Type} (f : A -> option B) (xs : list A) :
  Exists (fun x => f x = None) xs -> promise_all (map f xs) = None.
Proof.
  induction 1 as [x xs Hx|x xs _ IH]; simpl.
  - now rewrite Hx.
  - rewrite IH. now destruct (f x).
Qed.

Lemma promise_all_resolves {A B : Type} (f : A -> option B) (xs : list A) :
  Forall (fun x => f x <> None) xs -> exists ys, promise_all (map f xs) = Some ys.
Proof.
  induction 1 as [|x xs Hx _ [ys IH]]; simpl.
  - now exists [].
  - destruct (f x) as [y|]; [|now contradiction Hx].
    rewrite IH. now exists (y :: ys).
Qed.

Lemma processFile_file (x : Picked) (f : UploadedFile.t) :
  processFile x = Some f ->
  UploadedFile.file f = picked x
  /\ UploadedFile.id f = JS.substr (random_toString36 x) 2 9.
Proof.
  unfold processFile, fileToBase64. destruct (reader_result x); [|discriminate].
  intro H. injection H as <-. now split.
Qed.

Lemma processed_files (newFiles : list Picked) (added : list UploadedFile.t) :
  Forall2 (fun x f => processFile x = Some f) newFiles added ->
  map UploadedFile.file added = map picked newFiles
  /\ map UploadedFile.id added
     = map (fun x => JS.substr (random_toString36 x) 2 9) newFiles.
Proof.
  induction 1 as [|x f xs fs Hx _ [IH1 IH2]]; simpl; [now split|].
  apply processFile_file in Hx. destruct Hx as [-> ->].
  now rewrite IH1, IH2.
Qed.

Lemma handleFileChange_over_capacity (newFiles : list Picked) (s : State) :
  6 < List.length (files s) + List.length newFiles ->
  handleFileChange newFiles s = setError (Some capacity_message) s.
Proof.
  intro H. unfold handleFileChange, handleFileChange_begin.
  apply Nat.ltb_lt in H. now rewrite H.
Qed.

Lemma handleFileChange_within_capacity (newFiles : list Picked) (s : State) :
  List.length (files s) + List.length newFiles <= 6 ->
  handleFileChange newFiles s = handleFileChange_settled newFiles s.
Proof.
  intro H. unfold handleFileChange, handleFileChange_begin.
  apply Nat.ltb_ge in H. now rewrite H.
Qed.

(** C4, as the code has it: a batch that would take the store past six
    entries is rejected whole, with the capacity error and the store as it
    was; a batch that fits and whose files are all read is appended whole, in
    arrival order, each entry made from its file; a batch that fits but has a
    file whose read fails changes nothing. *)
Theorem handleFileChange_whole_batch (newFiles : list Picked) (s : State) :
  (6 < List.length (files s) + List.length newFiles ->
     handleFileChange newFiles s = setError (Some capacity_message) s
     /\ files (handleFileChange newFiles s) = files s)
  /\ (List.length (files s) + List.length newFiles <= 6 ->
      Forall (fun x => reader_result x <> None) newFiles ->
      exists added,
        Forall2 (fun x f => processFile x = Some f) newFiles added
        /\ map UploadedFile.file added = map picked newFiles
        /\ files (handleFileChange newFiles s) = (files s ++ added)%list
        /\ error (handleFileChange newFiles s) = None)
  /\ (List.length (files s) + List.length newFiles <= 6 ->
      Exists (fun x => reader_result x = None) newFiles ->
      handleFileChange newFiles s = s).
Proof.
  split; [|split].
  - intro H. rewrite (handleFileChange_over_capacity _ _ H). now split.
  - intros Hfit Hread. rewrite (handleFileChange_within_capacity _ _ Hfit).
    assert (Hproc : Forall (fun x => processFile x <> None) newFiles).
    { eapply Forall_impl; [|exact Hread]. intros x Hx. cbv beta in Hx.
      unfold processFile, fileToBase64.
      destruct (reader_result x); [discriminate|now contradiction Hx]. }
    destruct (promise_all_resolves processFile newFiles Hproc) as [added Hall].
    exists added. unfold handleFileChange_settled. rewrite Hall.
    apply promise_all_Forall2 in Hall.
    split; [assumption|]. split; [now apply processed_files|]. now split.
  - intros Hfit Hfail. rewrite (handleFileChange_within_capacity _ _ Hfit).
    unfold handleFileChange_settled. rewrite promise_all_rejects; [reflexivity|].
    eapply Exists_impl; [|exact Hfail]. intros x Hx. cbv beta in Hx.
    unfold processFile, fileToBase64. now rewrite Hx.
Qed.

Lemma handleFileChange_whole_batch_witness :
  (handleFileChange (four_a ++ [png "a5.png" "0.c4v5b6n7m8k"])%list robot
   = setError (Some capacity_message) robot)
  /\ (exists added,
         map UploadedFile.file added = map picked four_a
         /\ files (handleFileChange four_a robot) = (files robot ++ added)%list)
  /\ handleFileChange [png "a1.png" "0.q1w2e3r4t5y"; unreadable] initial = initial.
Proof.
  split; [|split].
  - apply (proj1 (handleFileChange_whole_batch _ robot)). simpl. lia.
  - destruct (proj1 (proj2 (handleFileChange_whole_batch four_a robot)))
      as (added & _ & Hfile & Hfiles & _).
    + simpl. lia.
    + repeat constructor; discriminate.
    + now exists added.
  - apply (proj2 (proj2 (handleFileChange_whole_batch _ initial))).
    + simpl. lia.
    + right. now left.
Defined.

(** C4 as stated fails on a batch that fits but holds a file whose read
    fails: nothing of the batch is appended. *)
Lemma handleFileChange_unreadable_not_appended :
  List.length (files initial) + List.length [unreadable] <= 6
  /\ ~ (exists added,
           files (handleFileChange [unreadable] initial) = (files initial ++ added)%list
           /\ map UploadedFile.file added = map picked [unreadable]).
Proof.
  split; [simpl; lia|].
  intros (added & Hfiles & Hmap). simpl in Hfiles. subst added. discriminate Hmap.
Qed.

(** When nothing else touches the store between the capacity check and the
    append, neither handler takes the store past six entries. *)
Lemma handleFileChange_keeps_bound (newFiles : list Picked) (s : State) :
  List.length (files s) <= 6 ->
  List.length (files (handleFileChange newFiles s)) <= 6.
Proof.
  intro Hs. destruct (Nat.lt_ge_cases 6 (List.length (files s) + List.length newFiles)) as [H|H].
  - now rewrite (handleFileChange_over_capacity _ _ H).
  - rewrite (handleFileChange_within_capacity _ _ H). unfold handleFileChange_settled.
    destruct (promise_all (map processFile newFiles)) as [added|] eqn:E; [|assumption].
    apply promise_all_Forall2, Forall2_length in E.
    simpl. rewrite length_app. lia.
Qed.

Lemma removeFile_keeps_bound (id : string) (s : State) :
  List.length (files s) <= 6 -> List.length (files (removeFile id s)) <= 6.
Proof.
  intro Hs. simpl. etransitivity; [apply filter_length_le|assumption].
Qed.

(** C5: the store can hold more than six entries.  Two batches of four are
    picked one after the other while the first is still being read: both
    capacity checks see the empty store and pass, and both batches are
    appended when their reads settle. *)
Theorem overlapping_batches_exceed_six :
  exists w,
    run boot [PickFiles four_a; PickFiles four_b; FilesSettled 0; FilesSettled 0] = Some w
    /\ List.length (files (ui w)) = 8
    /\ error (ui w) = None.
Proof. eexists. split; [reflexivity|]. split; reflexivity. Qed.

(** ** Results across generation attempts *)

(** A generation attempt that passes validation clears the image and the
    script before the request goes out. *)
Lemma generateImage_begin_clears (s : State) :
  missing_input s = false ->
  generatedImage (fst (generateImage_begin s)) = None
  /\ videoScript (fst (generateImage_begin s)) = None
  /\ snd (generateImage_begin s) = Some (image_request s).
Proof. intro H. rewrite (generateImage_begin_valid s H). now repeat split. Qed.

(** A generation attempt that fails leaves both results empty as long as no
    other handler settles during the call. *)
Lemma generateImage_failure_leaves_empty (o : Outcome) (s : State) :
  missing_input s = false ->
  (forall r, o = Responded r -> scan_parts (response_parts r) = None) ->
  generatedImage (generateImage o s) = None
  /\ videoScript (generateImage o s) = None
  /\ (o <> Threw Err.nullish -> error (generateImage o s) <> None).
Proof.
  intros Hvalid Hfail. unfold generateImage.
  rewrite (generateImage_begin_valid s Hvalid). unfold generateImage_settled.
  destruct o as [[|message]|r].
  - repeat split. intro H. now contradiction H.
  - repeat split. discriminate.
  - rewrite (Hfail r eq_refl). repeat split. discriminate.
Qed.

(** C6: a script can outlive the image it was asked for.  The script request
    goes out for the first image; the regenerate button, still offered while
    the script call is in flight, starts a new attempt that clears both
    results; the script call then settles and stores its text.  The script is
    now set with no generated image, and stays set under the next image. *)
Theorem script_survives_regeneration :
  exists w w',
    run boot [ TypeDescription "a robot reading a book";
               ClickGenerate;
               ImageSettled 0 (Responded (respond [inline_part "iVBORw0K"]));
               ClickGenerateScript;
               ClickRegenerate;
               ScriptSettled 0 (Responded city_day) ] = Some w
    /\ videoScript (ui w) = Some "INT. CITY — DAY..."
    /\ generatedImage (ui w) = None
    /\ List.length (imageCalls w) = 1
    /\ step w (ImageSettled 0 (Responded (respond [inline_part "AAAA"]))) = Some w'
    /\ generatedImage (ui w') = Some "data:image/png;base64,AAAA"
    /\ videoScript (ui w') = Some "INT. CITY — DAY...".
Proof. do 2 eexists. repeat split; reflexivity. Qed.

(** ** Ids of stored entries *)

Lemma take_out_flat_map {A : Type} (f : A -> list string) (n : nat) (l rest : list A) (b : A) :
  take_out n l = Some (b, rest) ->
  forall x, count_occ string_dec (flat_map f l) x
            = count_occ string_dec (f b) x + count_occ string_dec (flat_map f rest) x.
Proof.
  revert n rest. induction l as [|a l IH]; intros n rest H x;
    destruct n as [|n]; simpl in H; try discriminate.
  - injection H as <- <-. simpl. now rewrite count_occ_app.
  - destruct (take_out n l) as [[y rest']|] eqn:E; [|discriminate].
    injection H as <- <-. simpl. rewrite !count_occ_app, (IH _ _ E x). lia.
Qed.

Lemma count_occ_ids_filter (p : UploadedFile.t -> bool) (l : list UploadedFile.t) (x : string) :
  count_occ string_dec (map UploadedFile.id (filter p l)) x
  <= count_occ string_dec (map UploadedFile.id l) x.
Proof.
  induction l as [|f l IH]; simpl; [lia|].
  destruct (p f); simpl; destruct (string_dec (UploadedFile.id f) x); lia.
Qed.

Lemma handleFileChange_settled_ids (newFiles : list Picked) (s : State) (x : string) :
  count_occ string_dec (store_ids (handleFileChange_settled newFiles s)) x
  <= count_occ string_dec (store_ids s) x + count_occ string_dec (batch_ids newFiles) x.
Proof.
  unfold handleFileChange_settled.
  destruct (promise_all (map processFile newFiles)) as [added|] eqn:E; [|lia].
  apply promise_all_Forall2, processed_files in E. destruct E as [_ Hids].
  unfold store_ids. simpl. rewrite map_app, count_occ_app, Hids. unfold batch_ids. lia.
Qed.

Lemma files_generateImage_begin (s : State) :
  files (fst (generateImage_begin s)) = files s.
Proof. unfold generateImage_begin. now destruct (missing_input s). Qed.

Lemma files_generateImage_settled (o : Outcome) (s : State) :
  files (generateImage_settled o s) = files s.
Proof.
  unfold generateImage_settled. destruct o as [[|message]|r]; try reflexivity.
  now destruct (scan_parts (response_parts r)).
Qed.

Lemma files_generateVideoScript_begin (s : State) :
  files (fst (generateVideoScript_begin s)) = files s.
Proof. unfold generateVideoScript_begin. now destruct (no_image s). Qed.

Lemma files_generateVideoScript_settled (o : Outcome) (s : State) :
  files (generateVideoScript_settled o s) = files s.
Proof. unfold generateVideoScript_settled. now destruct o. Qed.

Lemma start_image_store (w : World) :
  files (ui (start_image w)) = files (ui w) /\ reading (start_image w) = reading w.
Proof.
  unfold start_image. pose proof (files_generateImage_begin (ui w)) as H.
  destruct (generateImage_begin (ui w)) as [s' [req|]]; now split.
Qed.

Lemma start_script_store (w : World) :
  files (ui (start_script w)) = files (ui w) /\ reading (start_script w) = reading w.
Proof.
  unfold start_script. pose proof (files_generateVideoScript_begin (ui w)) as H.
  destruct (generateVideoScript_begin (ui w)) as [s' [req|]]; now split.
Qed.

Lemma occurrences_same_store (w w' : World) (trace : list Event) (x : string) :
  files (ui w') = files (ui w) -> reading w' = reading w ->
  occurrences w' trace x = occurrences w trace x.
Proof.
  intros Hf Hr. unfold occurrences, store_ids, reading_ids. now rewrite Hf, Hr.
Qed.

(** No event makes an id occur more often than it was going to. *)
Lemma step_occurrences (w w' : World) (ev : Event) (rest : list Event) (x : string) :
  step w ev = Some w' -> occurrences w' rest x <= occurrences w (ev :: rest) x.
Proof.
  destruct ev as [v|id|id|newFiles|n|id| | |n o| |n o]; intro H; cbn [step] in H.
  - injection H as <-. now rewrite (occurrences_same_store w _ rest x).
  - destruct (has_id SCENES id); [|discriminate]. injection H as <-.
    now rewrite (occurrences_same_store w _ rest x).
  - destruct (has_id STYLES id); [|discriminate]. injection H as <-.
    now rewrite (occurrences_same_store w _ rest x).
  - unfold handleFileChange_begin in H.
    destruct (6 <? _)%nat; injection H as <-; unfold occurrences, reading_ids; simpl.
    + rewrite count_occ_app. unfold store_ids. simpl. lia.
    + rewrite flat_map_app, !count_occ_app. simpl. rewrite app_nil_r. lia.
  - destruct (take_out n (reading w)) as [[newFiles rest']|] eqn:E; [|discriminate].
    injection H as <-. unfold occurrences, reading_ids. simpl.
    rewrite (take_out_flat_map batch_ids _ _ _ _ E x).
    pose proof (handleFileChange_settled_ids newFiles (ui w) x). lia.
  - destruct (stored id (ui w)); [|discriminate]. injection H as <-.
    unfold occurrences, reading_ids, store_ids. simpl.
    pose proof (count_occ_ids_filter
                  (fun f => negb (String.eqb (UploadedFile.id f) id)) (files (ui w)) x).
    lia.
  - destruct (isGenerating (ui w)); [discriminate|]. injection H as <-.
    destruct (start_image_store w) as [Hf Hr].
    now rewrite (occurrences_same_store w _ rest x Hf Hr).
  - destruct (no_image (ui w)); [discriminate|]. injection H as <-.
    destruct (start_image_store w) as [Hf Hr].
    now rewrite (occurrences_same_store w _ rest x Hf Hr).
  - destruct (take_out n (imageCalls w)) as [[req rest']|]; [|discriminate].
    injection H as <-.
    rewrite (occurrences_same_store w _ rest x); [reflexivity| |reflexivity].
    apply files_generateImage_settled.
  - destruct (no_image (ui w) || negb (no_script (ui w)) || isGeneratingScript (ui w));
      [discriminate|].
    injection H as <-. destruct (start_script_store w) as [Hf Hr].
    now rewrite (occurrences_same_store w _ rest x Hf Hr).
  - destruct (take_out n (scriptCalls w)) as [[req rest']|]; [|discriminate].
    injection H as <-.
    rewrite (occurrences_same_store w _ rest x); [reflexivity| |reflexivity].
    apply files_generateVideoScript_settled.
Qed.

Lemma run_occurrences (trace : list Event) (w w' : World) (x : string) :
  run w trace = Some w' -> occurrences w' [] x <= occurrences w trace x.
Proof.
  revert w. induction trace as [|ev rest IH]; intros w H; simpl in H.
  - now injection H as <-.
  - destruct (step w ev) as [w1|] eqn:E; [|discriminate].
    etransitivity; [exact (IH w1 H)|exact (step_occurrences w w1 ev rest x E)].
Qed.

(** C9, as the code has it: along every run of the component in which the ids
    made from [Math.random()] for the picked files are pairwise distinct, no
    two stored entries share an id. *)
Theorem stored_ids_distinct (trace : list Event) (w : World) :
  run boot trace = Some w ->
  NoDup (trace_ids trace) ->
  NoDup (map UploadedFile.id (files (ui w))).
Proof.
  intros Hrun Hdistinct. apply (NoDup_count_occ string_dec). intro x.
  pose proof (run_occurrences trace boot w x Hrun) as H.
  rewrite (NoDup_count_occ string_dec) in Hdistinct. specialize (Hdistinct x).
  unfold occurrences, store_ids in H. simpl in H. lia.
Qed.

Lemma stored_ids_distinct_witness :
  exists w,
    run boot upload_session = Some w
    /\ List.length (files (ui w)) = 5
    /\ NoDup (map UploadedFile.id (files (ui w))).
Proof.
  eexists. split; [reflexivity|]. split; [reflexivity|].
  eapply (stored_ids_distinct upload_session); [reflexivity|].
  repeat constructor; simpl; intuition discriminate.
Defined.

(** C9 as stated fails: when [Math.random()] returns for two files numbers
    that agree on their first nine base-36 digits, both entries are stored
    under the same id. *)
Lemma twins_share_an_id :
  exists w,
    run boot [PickFiles twins; FilesSettled 0] = Some w
    /\ map UploadedFile.id (files (ui w)) = ["4fzyo82mv"; "4fzyo82mv"]
    /\ ~ NoDup (map UploadedFile.id (files (ui w))).
Proof.
  eexists. split; [reflexivity|]. split; [reflexivity|].
  simpl. intro H. inversion H as [|x l Hin _]; subst. apply Hin. now left.
Qed.

(** ** Calls in flight *)

(** The events of the upload store and of the selection controls touch
    neither the results nor the busy flags nor the calls in flight: after
    [cbn [step]] their case of a step is closed by this tactic whenever the
    statement only reads those. *)
Ltac aside H :=
  unfold handleFileChange_begin in H;
  repeat match type of H with
         | (if ?c then _ else _) = Some _ => destruct c
         | (let (_, _) := (if ?c then _ else _) in _) = Some _ => destruct c
         | match take_out ?n ?l with Some _ => _ | None => _ end = Some _ =>
             destruct (take_out n l) as [[? ?]|]
         end;
  try discriminate H; injection H as <-;
  try unfold handleFileChange_settled;
  try match goal with
      | |- context [promise_all ?l] => destruct (promise_all l)
      end;
  exact (fun I => I).

(** A property kept by every step is kept by every run. *)
Lemma run_invariant (P : World -> Prop) :
  (forall w w' ev, step w ev = Some w' -> P w -> P w') ->
  forall trace w w', run w trace = Some w' -> P w -> P w'.
Proof.
  intros Hstep trace. induction trace as [|ev rest IH]; intros w w' H Hw; simpl in H.
  - now injection H as <-.
  - destruct (step w ev) as [w1|] eqn:E; [|discriminate].
    exact (IH w1 w' H (Hstep w w1 ev E Hw)).
Qed.

Lemma take_out_nil {A : Type} (n : nat) : take_out n (@nil A) = None.
Proof. now destruct n. Qed.

Lemma take_out_singleton {A : Type} (n : nat) (a b : A) (rest : list A) :
  take_out n [a] = Some (b, rest) -> rest = [].
Proof.
  destruct n as [|n]; simpl; intro H.
  - now injection H as _ <-.
  - now rewrite take_out_nil in H.
Qed.

Lemma or_else_not_empty (x : option string) (d : string) :
  d <> EmptyString -> JS.or_else x d <> EmptyString.
Proof.
  intro Hd. unfold JS.or_else. destruct x as [v|]; [|assumption].
  destruct v; simpl; [assumption|discriminate].
Qed.

Lemma step_image_call_inv (w w' : World) (ev : Event) :
  step w ev = Some w' -> image_call_inv w -> image_call_inv w'.
Proof.
  unfold image_call_inv.
  destruct ev as [v|id|id|newFiles|n|id| | |n o| |n o]; intro H; cbn [step] in H;
    try (aside H; fail).
  - destruct (isGenerating (ui w)) eqn:Hbusy; [discriminate|]. injection H as <-.
    intros [Hnone|(req & _ & Hup & _)]; [|congruence].
    unfold start_image, generateImage_begin.
    destruct (missing_input (ui w)); simpl; [now left|right].
    rewrite Hnone. eexists. now repeat split.
  - destruct (no_image (ui w)) eqn:Himg; [discriminate|]. injection H as <-.
    intros [Hnone|(req & _ & _ & Hunset)].
    + unfold start_image, generateImage_begin.
      destruct (missing_input (ui w)); simpl; [now left|right].
      rewrite Hnone. eexists. now repeat split.
    + unfold no_image in Himg. rewrite Hunset in Himg. discriminate.
  - destruct (take_out n (imageCalls w)) as [[req rest']|] eqn:E; [|discriminate].
    injection H as <-. simpl. intros [Hnone|(req' & Hone & _)].
    + rewrite Hnone, take_out_nil in E. discriminate.
    + rewrite Hone in E. left. exact (take_out_singleton _ _ _ _ E).
  - destruct (no_image (ui w) || negb (no_script (ui w)) || isGeneratingScript (ui w));
      [discriminate|].
    injection H as <-. unfold start_script, generateVideoScript_begin.
    destruct (no_image (ui w)); exact (fun I => I).
  - destruct (take_out n (scriptCalls w)) as [[req rest']|]; [|discriminate].
    injection H as <-. unfold generateVideoScript_settled.
    destruct o; exact (fun I => I).
Qed.

Lemma run_image_call_inv (trace : list Event) (w w' : World) :
  run w trace = Some w' -> image_call_inv w -> image_call_inv w'.
Proof. exact (run_invariant image_call_inv step_image_call_inv trace w w'). Qed.

(** X14: in every run, an image call that settles without an image leaves the
    generated image unset, whatever else happened during the call.  It leaves
    an error set, except when the value caught is [undefined] or [null]:
    reading its message throws inside the [catch] block, and the error is
    left as it was. *)
Lemma failed_image_call_leaves_unset (w w' : World) (n : nat) (o : Outcome) :
  reachable w ->
  step w (ImageSettled n o) = Some w' ->
  (forall r, o = Responded r -> scan_parts (response_parts r) = None) ->
  generatedImage (ui w') = None
  /\ (o = Threw Err.nullish -> error (ui w') = error (ui w))
  /\ (o <> Threw Err.nullish -> error (ui w') <> None).
Proof.
  intros [trace Hrun] Hstep Hfail.
  pose proof (run_image_call_inv trace boot w Hrun (or_introl eq_refl)) as I.
  cbn [step] in Hstep.
  destruct (take_out n (imageCalls w)) as [[req rest]|] eqn:E; [|discriminate].
  injection Hstep as <-. cbn [ui]. destruct I as [Hnone|(req' & _ & _ & Hunset)].
  - rewrite Hnone, take_out_nil in E. discriminate.
  - rewrite (generateImage_settled_no_image o (ui w) Hfail). split; [assumption|].
    unfold generateImage_settled. destruct o as [[|message]|r].
    + split; [reflexivity|]. intro H. now contradiction H.
    + split; discriminate.
    + rewrite (Hfail r eq_refl). split; discriminate.
Qed.

Lemma step_script_call_inv (w w' : World) (ev : Event) :
  step w ev = Some w' -> script_call_inv w -> script_call_inv w'.
Proof.
  unfold script_call_inv.
  destruct ev as [v|id|id|newFiles|n|id| | |n o| |n o]; intro H; cbn [step] in H;
    try (aside H; fail).
  - destruct (isGenerating (ui w)); [discriminate|]. injection H as <-.
    unfold start_image, generateImage_begin.
    destruct (missing_input (ui w)); simpl; [exact (fun I => I)|].
    intros [[I|(req & Hone & Hup & _)] _]; (split; [|discriminate]).
    + now left.
    + right. now exists req.
  - destruct (no_image (ui w)); [discriminate|]. injection H as <-.
    unfold start_image, generateImage_begin.
    destruct (missing_input (ui w)); simpl; [exact (fun I => I)|].
    intros [[I|(req & Hone & Hup & _)] _]; (split; [|discriminate]).
    + now left.
    + right. now exists req.
  - destruct (take_out n (imageCalls w)) as [[req rest']|]; [|discriminate].
    injection H as <-. unfold generateImage_settled.
    destruct o as [[|message]|r]; try exact (fun I => I).
    destruct (scan_parts (response_parts r)); exact (fun I => I).
  - destruct (no_image (ui w)) eqn:Himg; [discriminate|].
    destruct (no_script (ui w)) eqn:Hscript; [|discriminate].
    destruct (isGeneratingScript (ui w)) eqn:Hbusy; [discriminate|].
    injection H as <-. unfold start_script, generateVideoScript_begin. rewrite Himg. simpl.
    intros [[[Hnone _]|(req & _ & Hup & _)] Hheld]; [|congruence].
    split; [|exact Hheld]. right. rewrite Hnone. eexists. repeat split.
    unfold no_script in Hscript. destruct (videoScript (ui w)) as [v|] eqn:Hv; [|reflexivity].
    apply negb_true_iff in Hscript. specialize (Hheld v eq_refl).
    apply truthy_not_empty in Hheld. congruence.
  - destruct (take_out n (scriptCalls w)) as [[req rest']|] eqn:E; [|discriminate].
    injection H as <-. intros [[[Hnone _]|(req' & Hone & _ & Hunset)] Hheld].
    + rewrite Hnone, take_out_nil in E. discriminate.
    + rewrite Hone in E. apply take_out_singleton in E. subst rest'.
      unfold generateVideoScript_settled. destruct o as [err|r]; simpl.
      * split; [now left|]. now rewrite Hunset.
      * split; [now left|]. intros v Hv. injection Hv as <-.
        apply or_else_not_empty. discriminate.
Qed.

Lemma run_script_call_inv (trace : list Event) (w w' : World) :
  run w trace = Some w' -> script_call_inv w -> script_call_inv w'.
Proof. exact (run_invariant script_call_inv step_script_call_inv trace w w'). Qed.

Lemma boot_script_call_inv : script_call_inv boot.
Proof. split; [now left|discriminate]. Qed.

(** X15: in every run, a script call that throws reports the script error and
    leaves the script unset, whatever else happened during the call. *)
Lemma failed_script_call_leaves_unset (w w' : World) (n : nat) (err : Err.t) :
  reachable w ->
  step w (ScriptSettled n (Threw err)) = Some w' ->
  videoScript (ui w') = None /\ error (ui w') = Some script_error_message.
Proof.
  intros [trace Hrun] Hstep.
  pose proof (run_script_call_inv trace boot w Hrun boot_script_call_inv) as [I _].
  cbn [step] in Hstep.
  destruct (take_out n (scriptCalls w)) as [[req rest]|] eqn:E; [|discriminate].
  injection Hstep as <-. simpl. destruct I as [[Hnone _]|(req' & _ & _ & Hunset)].
  - rewrite Hnone, take_out_nil in E. discriminate.
  - now split.
Qed.

(** ** Runs without overlap *)

Lemma run_if_run (ok : World -> Event -> bool) (trace : list Event) (w w' : World) :
  run_if ok w trace = Some w' -> run w trace = Some w'.
Proof.
  revert w. induction trace as [|ev rest IH]; intros w H; simpl in *; [assumption|].
  destruct (ok w ev); [|discriminate].
  destruct (step w ev) as [w1|]; [|discriminate]. now apply IH.
Qed.

Lemma run_if_invariant (ok : World -> Event -> bool) (P : World -> Prop) :
  (forall w w' ev, ok w ev = true -> step w ev = Some w' -> P w -> P w') ->
  forall trace w w', run_if ok w trace = Some w' -> P w -> P w'.
Proof.
  intros Hstep trace. induction trace as [|ev rest IH]; intros w w' H Hw; simpl in H.
  - now injection H as <-.
  - destruct (ok w ev) eqn:Hok; [|discriminate].
    destruct (step w ev) as [w1|] eqn:E; [|discriminate].
    exact (IH w1 w' H (Hstep w w1 ev Hok E Hw)).
Qed.

Lemma take_out_concat {A : Type} (n : nat) (l rest : list (list A)) (b : list A) :
  take_out n l = Some (b, rest) ->
  List.length (concat l) = List.length b + List.length (concat rest).
Proof.
  revert n rest. induction l as [|a l IH]; intros n rest H;
    destruct n as [|n]; simpl in H; try discriminate.
  - now injection H as <- <-; simpl; rewrite length_app.
  - destruct (take_out n l) as [[y rest']|] eqn:E; [|discriminate].
    injection H as <- <-. simpl. rewrite !length_app, (IH _ _ E). lia.
Qed.

Lemma handleFileChange_settled_length (newFiles : list Picked) (s : State) :
  List.length (files (handleFileChange_settled newFiles s))
  <= List.length (files s) + List.length newFiles.
Proof.
  unfold handleFileChange_settled.
  destruct (promise_all (map processFile newFiles)) as [added|] eqn:E; [|lia].
  apply promise_all_Forall2, Forall2_length in E. simpl. rewrite length_app. lia.
Qed.

Lemma step_admitted (w w' : World) (ev : Event) :
  picks_apart w ev = true -> step w ev = Some w' -> admitted w <= 6 -> admitted w' <= 6.
Proof.
  unfold admitted.
  destruct ev as [v|id|id|newFiles|n|id| | |n o| |n o]; intros Hok H; cbn [step] in H.
  - injection H as <-. exact (fun I => I).
  - destruct (has_id SCENES id); [|discriminate]. injection H as <-. exact (fun I => I).
  - destruct (has_id STYLES id); [|discriminate]. injection H as <-. exact (fun I => I).
  - simpl in Hok. destruct (reading w) as [|b bs] eqn:Hreading; [|discriminate].
    unfold handleFileChange_begin in H.
    destruct (6 <? _)%nat eqn:Hcheck; injection H as <-; simpl.
    + exact (fun I => I).
    + apply Nat.ltb_ge in Hcheck. rewrite app_nil_r. lia.
  - destruct (take_out n (reading w)) as [[newFiles rest']|] eqn:E; [|discriminate].
    injection H as <-. cbn [ui reading]. rewrite (take_out_concat _ _ _ _ E).
    pose proof (handleFileChange_settled_length newFiles (ui w)). lia.
  - destruct (stored id (ui w)); [|discriminate]. injection H as <-. simpl.
    pose proof (filter_length_le
                  (fun f => negb (String.eqb (UploadedFile.id f) id)) (files (ui w))).
    lia.
  - destruct (isGenerating (ui w)); [discriminate|]. injection H as <-.
    destruct (start_image_store w) as [-> ->]. exact (fun I => I).
  - destruct (no_image (ui w)); [discriminate|]. injection H as <-.
    destruct (start_image_store w) as [-> ->]. exact (fun I => I).
  - destruct (take_out n (imageCalls w)) as [[req rest']|]; [|discriminate].
    injection H as <-. cbn [ui reading]. rewrite files_generateImage_settled.
    exact (fun I => I).
  - destruct (no_image (ui w) || negb (no_script (ui w)) || isGeneratingScript (ui w));
      [discriminate|].
    injection H as <-. destruct (start_script_store w) as [-> ->]. exact (fun I => I).
  - destruct (take_out n (scriptCalls w)) as [[req rest']|]; [|discriminate].
    injection H as <-. cbn [ui reading]. rewrite files_generateVideoScript_settled.
    exact (fun I => I).
Qed.

(** X26: as long as no batch is picked while another is being read, the store
    never holds more than six entries. *)
Lemma store_bound_when_picks_apart (trace : list Event) (w : World) :
  run_if picks_apart boot trace = Some w -> List.length (files (ui w)) <= 6.
Proof.
  intro H.
  assert (Hw : admitted w <= 6).
  { apply (run_if_invariant picks_apart (fun w => admitted w <= 6)
             step_admitted trace boot w H).
    unfold admitted. simpl. lia. }
  unfold admitted in Hw. lia.
Qed.

Lemma scan_parts_truthy (ps : list Part.t) (url : string) :
  scan_parts ps = Some url -> JS.truthy url = true.
Proof.
  induction ps as [|p ps IH]; simpl; [discriminate|].
  destruct (Part.inlineData p); [|assumption].
  intro H. now injection H as <-.
Qed.

Lemma step_script_has_image (w w' : World) (ev : Event) :
  attempts_apart w ev = true -> step w ev = Some w' ->
  script_has_image w -> script_has_image w'.
Proof.
  unfold script_has_image.
  destruct ev as [v|id|id|newFiles|n|id| | |n o| |n o]; intros Hok H; cbn [step] in H;
    try (aside H; fail).
  - simpl in Hok. destruct (scriptCalls w) as [|c cs] eqn:Hcalls; [|discriminate].
    destruct (isGenerating (ui w)); [discriminate|]. injection H as <-.
    unfold start_image, generateImage_begin. rewrite Hcalls.
    destruct (missing_input (ui w)); simpl; [exact (fun I => I)|].
    intros _ [Hheld|Hcall]; now contradiction.
  - simpl in Hok. destruct (scriptCalls w) as [|c cs] eqn:Hcalls; [|discriminate].
    destruct (no_image (ui w)) eqn:Himg; [discriminate|]. injection H as <-.
    unfold start_image, generateImage_begin. rewrite Hcalls.
    destruct (missing_input (ui w)); simpl; [intros _ _; exact Himg|].
    intros _ [Hheld|Hcall]; now contradiction.
  - destruct (take_out n (imageCalls w)) as [[req rest']|]; [|discriminate].
    injection H as <-. unfold generateImage_settled.
    destruct o as [[|message]|r]; try exact (fun I => I).
    destruct (scan_parts (response_parts r)) as [url|] eqn:E; [|exact (fun I => I)].
    intros _ _. unfold no_image. simpl. now rewrite (scan_parts_truthy _ _ E).
  - destruct (no_image (ui w)) eqn:Himg; [discriminate|].
    destruct (no_script (ui w)); [|discriminate].
    destruct (isGeneratingScript (ui w)); [discriminate|].
    injection H as <-. unfold start_script, generateVideoScript_begin. rewrite Himg.
    intros _ _. exact Himg.
  - destruct (take_out n (scriptCalls w)) as [[req rest']|] eqn:E; [|discriminate].
    injection H as <-. intros I _.
    assert (Hcall : scriptCalls w <> []).
    { intro Hnone. rewrite Hnone, take_out_nil in E. discriminate. }
    specialize (I (or_intror Hcall)).
    unfold generateVideoScript_settled. now destruct o.
Qed.

(** X16: as long as no generation attempt starts while a script call is in
    flight, a script is only ever held together with the generated image it
    was asked for. *)
Lemma script_with_image_when_attempts_apart (trace : list Event) (w : World) :
  run_if attempts_apart boot trace = Some w ->
  videoScript (ui w) <> None ->
  exists img, generatedImage (ui w) = Some img.
Proof.
  intros H Hheld.
  assert (Hw : script_has_image w).
  { apply (run_if_invariant attempts_apart script_has_image
             step_script_has_image trace boot w H).
    intros [Hs|Hc]; now contradiction. }
  specialize (Hw (or_introl Hheld)). unfold no_image in Hw.
  destruct (generatedImage (ui w)) as [img|]; [now exists img|discriminate].
Qed.

(** * Further properties of the handlers *)

(** ** [removeFile] *)

Lemma filter_other_ids_absent (id : string) (l : list UploadedFile.t) :
  existsb (fun f => String.eqb (UploadedFile.id f) id) l = false ->
  filter (fun f => negb (String.eqb (UploadedFile.id f) id)) l = l.
Proof.
  induction l as [|f l IH]; simpl; [reflexivity|].
  intro H. apply orb_false_iff in H. destruct H as [Hf Hl].
  rewrite Hf. simpl. now rewrite IH.
Qed.

Lemma filter_other_ids_gone (id : string) (l : list UploadedFile.t) :
  existsb (fun f => String.eqb (UploadedFile.id f) id)
    (filter (fun f => negb (String.eqb (UploadedFile.id f) id)) l) = false.
Proof.
  induction l as [|f l IH]; simpl; [reflexivity|].
  destruct (String.eqb (UploadedFile.id f) id) eqn:E; simpl; [assumption|].
  now rewrite E.
Qed.

Lemma existsb_id_in (id : string) (l : list UploadedFile.t) :
  existsb (fun f => String.eqb (UploadedFile.id f) id) l = true
  <-> In id (map UploadedFile.id l).
Proof.
  rewrite existsb_exists, in_map_iff. split; intros (f & H1 & H2); exists f.
  - apply String.eqb_eq in H2. now split.
  - split; [assumption|]. now apply String.eqb_eq.
Qed.

(** X1: a remove click takes out every entry stored under the id, also when
    several entries share it, and nothing else: the entries with another id
    stay, no entry appears, and no other cell of the state changes. *)
Theorem removeFile_clears_id (id : string) (s : State) :
  stored id (removeFile id s) = false
  /\ (forall f, In f (files (removeFile id s))
               <-> In f (files s) /\ UploadedFile.id f <> id)
  /\ setFiles (fun _ => files s) (removeFile id s) = s.
Proof.
  split; [|split].
  - unfold stored. simpl. apply filter_other_ids_gone.
  - intro f. simpl. rewrite filter_In, negb_true_iff, String.eqb_neq. reflexivity.
  - now destruct s.
Qed.

Lemma removeFile_clears_id_witness :
  stored "z81hq02mc" (removeFile "z81hq02mc" three_uploads) = false
  /\ In (UploadedFile.mk "k3j9x0a1b" (File.mk "a.png" "image/png") "blob:a" (Some "QUJD"))
        (files (removeFile "z81hq02mc" three_uploads)).
Proof.
  destruct (removeFile_clears_id "z81hq02mc" three_uploads) as (Hgone & Hkept & _).
  split; [exact Hgone|]. apply Hkept. split; [now left|discriminate].
Defined.

(** X2: removing an id that is not stored changes nothing at all. *)
Theorem removeFile_absent (id : string) (s : State) :
  stored id s = false -> removeFile id s = s.
Proof.
  intro H. unfold removeFile, setFiles.
  rewrite (filter_other_ids_absent id (files s) H). now destruct s.
Qed.

Lemma removeFile_absent_witness : removeFile "nothere" three_uploads = three_uploads.
Proof. exact (removeFile_absent "nothere" three_uploads eq_refl). Defined.

(** X3: when the stored ids are pairwise distinct, removing a stored id takes
    out exactly one entry. *)
Theorem removeFile_drops_one (id : string) (s : State) :
  NoDup (map UploadedFile.id (files s)) ->
  stored id s = true ->
  S (List.length (files (removeFile id s))) = List.length (files s).
Proof.
  unfold stored. simpl. induction (files s) as [|f l IH]; simpl; [discriminate|].
  intros Hnodup Hin. inversion Hnodup as [|x xs Hfresh Hrest]; subst.
  destruct (String.eqb (UploadedFile.id f) id) eqn:E; simpl.
  - apply String.eqb_eq in E. subst id.
    rewrite filter_other_ids_absent; [reflexivity|].
    destruct (existsb _ l) eqn:Hl; [|reflexivity].
    apply existsb_id_in in Hl. now contradiction.
  - f_equal. now apply IH.
Qed.

Lemma removeFile_drops_one_witness :
  List.length (files (removeFile "z81hq02mc" three_uploads)) = 2.
Proof.
  apply eq_add_S. apply (removeFile_drops_one "z81hq02mc" three_uploads).
  - repeat constructor; simpl; intuition discriminate.
  - reflexivity.
Defined.

(** X4: remove clicks can be done in either order, and a second click on the
    same id changes nothing. *)
Theorem removeFile_compose (a b : string) (s : State) :
  removeFile a (removeFile b s) = removeFile b (removeFile a s)
  /\ removeFile a (removeFile a s) = removeFile a s.
Proof.
  unfold removeFile, setFiles. simpl. split; f_equal.
  - induction (files s) as [|f l IH]; simpl; [reflexivity|].
    destruct (String.eqb (UploadedFile.id f) a) eqn:Ea;
      destruct (String.eqb (UploadedFile.id f) b) eqn:Eb;
      simpl; rewrite ?Ea, ?Eb; simpl; now rewrite IH.
  - induction (files s) as [|f l IH]; simpl; [reflexivity|].
    destruct (String.eqb (UploadedFile.id f) a) eqn:Ea; simpl;
      rewrite ?Ea; simpl; now rewrite IH.
Qed.

(** ** The upload store along a run *)

(** Opens the guards of a step [H : step w ev = Some w'] once [step] has been
    unfolded for a given event, and replaces [w'] by the world it stands for. *)
Ltac guards H :=
  unfold handleFileChange_begin in H;
  repeat match type of H with
         | (if ?c then _ else _) = Some _ =>
             let E := fresh "Hguard" in destruct c eqn:E
         | (let (_, _) := (if ?c then _ else _) in _) = Some _ =>
             let E := fresh "Hguard" in destruct c eqn:E
         | match take_out ?n ?l with Some _ => _ | None => _ end = Some _ =>
             let E := fresh "Htake" in destruct (take_out n l) as [[? ?]|] eqn:E
         end;
  try discriminate H; injection H as <-.

Lemma step_files (w w' : World) (ev : Event) :
  step w ev = Some w' ->
  match ev with
  | FilesSettled n =>
      exists newFiles rest,
        take_out n (reading w) = Some (newFiles, rest)
        /\ files (ui w') = files (handleFileChange_settled newFiles (ui w))
  | ClickRemove id => files (ui w') = files (removeFile id (ui w))
  | _ => files (ui w') = files (ui w)
  end.
Proof.
  destruct ev as [v|id|id|newFiles|n|id| | |n o| |n o]; intro H; cbn [step] in H;
    guards H; cbn [ui]; try reflexivity.
  - now exists l, l0.
  - apply start_image_store.
  - apply start_image_store.
  - apply files_generateImage_settled.
  - apply start_script_store.
  - apply files_generateVideoScript_settled.
Qed.

(** X5: the upload of one readable file followed by a remove click on the id
    it was given brings the store back to what it was, provided the file fits
    and no stored entry already has that id. *)
Theorem upload_then_remove (x : Picked) (url : string) (s : State) :
  reader_result x = Some url ->
  List.length (files s) + 1 <= 6 ->
  stored (JS.substr (random_toString36 x) 2 9) s = false ->
  files (removeFile (JS.substr (random_toString36 x) 2 9) (handleFileChange [x] s))
  = files s.
Proof.
  intros Hread Hfit Hfresh.
  rewrite (handleFileChange_within_capacity [x] s Hfit).
  unfold handleFileChange_settled, processFile, fileToBase64. simpl. rewrite Hread. simpl.
  rewrite filter_app. simpl. rewrite String.eqb_refl. simpl.
  rewrite (filter_other_ids_absent _ _ Hfresh). apply app_nil_r.
Qed.

Lemma upload_then_remove_witness :
  files (removeFile "h7g6f5d4s" (handleFileChange [webp] three_uploads))
  = files three_uploads.
Proof.
  apply (upload_then_remove webp "data:image/webp;base64,UklGRg==" three_uploads eq_refl).
  - simpl. lia.
  - reflexivity.
Defined.

(** X6: no event other than a remove click takes an entry out of the store or
    changes the order of the entries: the store after the event is the store
    before it, followed by what the event appended. *)
Theorem only_remove_drops_entries (w w' : World) (ev : Event) :
  step w ev = Some w' ->
  (forall id, ev <> ClickRemove id) ->
  exists added, files (ui w') = (files (ui w) ++ added)%list.
Proof.
  intros H Hev. pose proof (step_files w w' ev H) as F.
  destruct ev; try (exists []; rewrite app_nil_r; exact F).
  - destruct F as (newFiles & rest & _ & ->). unfold handleFileChange_settled.
    destruct (promise_all (map processFile newFiles)) as [added|].
    + now exists added.
    + exists []. now rewrite app_nil_r.
  - now contradiction (Hev id).
Qed.

Lemma only_remove_drops_entries_witness :
  exists added,
    files (handleFileChange_settled [webp] three_uploads)
    = (files three_uploads ++ added)%list.
Proof.
  apply (only_remove_drops_entries (mkWorld three_uploads [[webp]] [] [])
           (mkWorld (handleFileChange_settled [webp] three_uploads) [] [] [])
           (FilesSettled 0) eq_refl).
  discriminate.
Defined.

Lemma store_bound_when_picks_apart_witness :
  exists w,
    run_if picks_apart boot upload_session = Some w
    /\ List.length (files (ui w)) <= 6.
Proof.
  eexists. split; [reflexivity|].
  apply (store_bound_when_picks_apart upload_session). reflexivity.
Defined.

Lemma substring_length (n m : nat) (s : string) :
  String.length (String.substring n m s) <= m.
Proof.
  revert n m. induction s as [|c s IH]; intros n m; destruct n, m; simpl; try lia.
  - specialize (IH 0 m). lia.
  - apply IH.
  - apply IH.
Qed.

Lemma processFile_id_length (x : Picked) (f : UploadedFile.t) :
  processFile x = Some f -> String.length (UploadedFile.id f) <= 9.
Proof.
  intro H. apply processFile_file in H. destruct H as [_ ->]. apply substring_length.
Qed.

(** X7: every id in the store has at most nine characters, at every point of
    every run. *)
Theorem stored_ids_short (w : World) :
  reachable w ->
  Forall (fun f => String.length (UploadedFile.id f) <= 9) (files (ui w)).
Proof.
  intros [trace Hrun].
  apply (run_invariant
           (fun w => Forall (fun f => String.length (UploadedFile.id f) <= 9) (files (ui w))))
    with (trace := trace) (w := boot); [|assumption|constructor].
  clear. intros w w' ev H I. pose proof (step_files w w' ev H) as F.
  destruct ev; try (rewrite F; exact I).
  - destruct F as (newFiles & rest & _ & ->). unfold handleFileChange_settled.
    destruct (promise_all (map processFile newFiles)) as [added|] eqn:E; [|exact I].
    simpl. apply Forall_app. split; [exact I|].
    apply promise_all_Forall2 in E. induction E as [|x f xs fs Hx _ IH]; constructor.
    + exact (processFile_id_length x f Hx).
    + exact IH.
  - rewrite F. simpl. clear F. induction I as [|f l Hf _ IH]; simpl; [constructor|].
    destruct (negb _); [constructor; assumption|assumption].
Qed.

Lemma stored_ids_short_witness :
  exists w,
    run boot upload_session = Some w
    /\ Forall (fun f => String.length (UploadedFile.id f) <= 9) (files (ui w)).
Proof.
  eexists. split; [reflexivity|].
  apply stored_ids_short. now exists upload_session.
Defined.

(** ** The payload of an upload *)

Lemma split_from_no_separator (c : ascii) (acc s : string) :
  ~ In c (list_ascii_of_string s) -> JS.split_from c acc s = [acc ++ s].
Proof.
  revert acc. induction s as [|a s IH]; intros acc H; simpl.
  - f_equal. induction acc as [|b acc IHacc]; simpl; [reflexivity|now rewrite <- IHacc].
  - simpl in H. destruct (Ascii.eqb a c) eqn:E.
    + apply Ascii.eqb_eq in E. exfalso. apply H. now left.
    + rewrite IH; [|intro Hin; apply H; now right].
      now rewrite append_assoc.
Qed.

Lemma split_from_first_separator (c : ascii) (acc head tail : string) :
  ~ In c (list_ascii_of_string head) ->
  JS.split_from c acc (head ++ String c tail)
  = (acc ++ head) :: JS.split_from c EmptyString tail.
Proof.
  revert acc. induction head as [|a head IH]; intros acc H; simpl.
  - rewrite Ascii.eqb_refl. f_equal.
    induction acc as [|b acc IHacc]; simpl; [reflexivity|now rewrite <- IHacc].
  - simpl in H. destruct (Ascii.eqb a c) eqn:E.
    + apply Ascii.eqb_eq in E. exfalso. apply H. now left.
    + rewrite IH; [|intro Hin; apply H; now right].
      now rewrite append_assoc.
Qed.

(** X8: the payload stored for an upload is what stands between the first and
    the second comma of the data URL that the reader returned: for a data URL
    made of a header, a comma and a payload, neither holding a comma, it is
    the payload; for a data URL without a comma there is no payload, and the
    entry is stored all the same. *)
Theorem processFile_payload (x : Picked) :
  (forall header payload,
      reader_result x = Some (header ++ "," ++ payload) ->
      ~ In ","%char (list_ascii_of_string header) ->
      ~ In ","%char (list_ascii_of_string payload) ->
      exists f, processFile x = Some f /\ UploadedFile.base64 f = Some payload)
  /\ (forall url,
      reader_result x = Some url ->
      ~ In ","%char (list_ascii_of_string url) ->
      exists f, processFile x = Some f /\ UploadedFile.base64 f = None).
Proof.
  unfold processFile, fileToBase64. split.
  - intros header payload Hread Hheader Hpayload. rewrite Hread.
    eexists. split; [reflexivity|]. simpl. unfold JS.split.
    rewrite (split_from_first_separator _ _ header payload Hheader).
    now rewrite (split_from_no_separator _ _ payload Hpayload).
  - intros url Hread Hurl. rewrite Hread.
    eexists. split; [reflexivity|]. simpl. unfold JS.split.
    now rewrite (split_from_no_separator _ _ url Hurl).
Qed.

Lemma processFile_payload_witness :
  (exists f, processFile webp = Some f /\ UploadedFile.base64 f = Some "UklGRg==")
  /\ (exists f, processFile bare = Some f /\ UploadedFile.base64 f = None).
Proof.
  split.
  - apply (proj1 (processFile_payload webp) "data:image/webp;base64" "UklGRg==" eq_refl);
      simpl; intuition discriminate.
  - apply (proj2 (processFile_payload bare) "data:" eq_refl);
      simpl; intuition discriminate.
Defined.

(** X9: what is uploaded is what is sent.  After a batch that fits and whose
    files are all read, the request that [generateImage] builds carries the
    instruction, then the inline parts of the earlier uploads, then one inline
    part per file of the batch, in the order picked, each with the media type
    of its file and the payload cut from its data URL. *)
Theorem upload_then_generate (newFiles : list Picked) (s : State) :
  List.length (files s) + List.length newFiles <= 6 ->
  Forall (fun x => reader_result x <> None) newFiles ->
  image_request (handleFileChange newFiles s)
  = Request.mk "gemini-2.5-flash-image"
      (Request.Parts
         (Part.mk (Some (image_prompt s)) None
          :: map file_part (files s)
          ++ map (fun x =>
                    Part.mk None
                      (Some (Blob.mk
                               (match reader_result x with
                                | Some url => nth_error (JS.split ","%char url) 1
                                | None => None
                                end)
                               (Some (File.type (picked x))))))
               newFiles)%list)
      (Some "16:9").
Proof.
  intros Hfit Hread. rewrite (handleFileChange_within_capacity _ _ Hfit).
  unfold handleFileChange_settled.
  assert (Hproc : Forall (fun x => processFile x <> None) newFiles).
  { eapply Forall_impl; [|exact Hread]. intros x Hx. cbv beta in Hx.
    unfold processFile, fileToBase64.
    destruct (reader_result x); [discriminate|now contradiction Hx]. }
  destruct (promise_all_resolves processFile newFiles Hproc) as [added Hall].
  rewrite Hall. apply promise_all_Forall2 in Hall.
  unfold image_request, image_parts. cbn [files setError setFiles].
  rewrite map_app. do 4 f_equal. clear Hfit Hread Hproc.
  induction Hall as [|x f xs fs Hx _ IH]; cbn [map]; [reflexivity|].
  rewrite IH. f_equal. unfold processFile, fileToBase64 in Hx.
  destruct (reader_result x); [|discriminate]. now injection Hx as <-.
Qed.

Lemma upload_then_generate_witness :
  Request.body (image_request (handleFileChange [webp] robot))
  = Request.Parts
      [ Part.mk (Some (image_prompt robot)) None;
        Part.mk None (Some (Blob.mk (Some "QUJD") (Some "image/png")));
        Part.mk None (Some (Blob.mk (Some "REVG") (Some "image/jpeg")));
        Part.mk None (Some (Blob.mk (Some "UklGRg==") (Some "image/webp"))) ].
Proof.
  rewrite (upload_then_generate [webp] robot).
  - reflexivity.
  - simpl. lia.
  - repeat constructor. discriminate.
Defined.

(** ** Failures of [generateImage] *)

(** X10: when the client throws during a generation attempt, the message
    shown is the message of the thrown value, or the fallback when the value
    has no message or an empty one; when the thrown value is [undefined] or
    [null], reading its message throws inside the [catch] block and no
    message is shown at all.  In every case the busy flag is lowered and both
    results are left empty. *)
Theorem generateImage_thrown (err : Err.t) (s : State) :
  missing_input s = false ->
  (forall m, err = Err.mk (Some m) -> m <> EmptyString ->
             error (generateImage (Threw err) s) = Some m)
  /\ (err = Err.mk None \/ err = Err.mk (Some EmptyString) ->
      error (generateImage (Threw err) s) = Some image_error_fallback)
  /\ (err = Err.nullish -> error (generateImage (Threw err) s) = None)
  /\ isGenerating (generateImage (Threw err) s) = false
  /\ generatedImage (generateImage (Threw err) s) = None
  /\ videoScript (generateImage (Threw err) s) = None.
Proof.
  intro Hvalid. unfold generateImage. rewrite (generateImage_begin_valid s Hvalid).
  unfold generateImage_settled. repeat split.
  - intros m -> Hne.
    change (Some (JS.or_else (Some m) image_error_fallback) = Some m).
    now rewrite or_else_truthy.
  - intros [->| ->]; reflexivity.
  - now intros ->.
  - now destruct err.
  - now destruct err.
Qed.

Lemma generateImage_thrown_witness :
  error (generateImage (Threw (Err.mk (Some "API key not valid"))) robot)
  = Some "API key not valid"
  /\ error (generateImage (Threw (Err.mk None)) robot) = Some image_error_fallback
  /\ error (generateImage (Threw Err.nullish) robot) = None
  /\ isGenerating (generateImage (Threw Err.nullish) robot) = false.
Proof.
  split; [|split; [|split]].
  - apply (proj1 (generateImage_thrown (Err.mk (Some "API key not valid")) robot eq_refl)
             "API key not valid" eq_refl).
    discriminate.
  - apply (proj1 (proj2 (generateImage_thrown (Err.mk None) robot eq_refl))). now left.
  - exact (proj1 (proj2 (proj2 (generateImage_thrown Err.nullish robot eq_refl))) eq_refl).
  - exact (proj1 (proj2 (proj2 (proj2 (generateImage_thrown Err.nullish robot eq_refl))))).
Defined.

(** X11: a response without candidates, with an empty candidate list, or
    whose first candidate has no content, no part list or an empty part list,
    ends the attempt with the no-image error, whatever the later candidates
    hold. *)
Theorem generateImage_missing_parts (r : Response.t) (s : State) :
  missing_input s = false ->
  Response.candidates r = None
  \/ Response.candidates r = Some []
  \/ (exists c rest,
         Response.candidates r = Some (c :: rest)
         /\ (Candidate.content c = None
             \/ exists ct, Candidate.content c = Some ct
                           /\ (Content.parts ct = None \/ Content.parts ct = Some []))) ->
  error (generateImage (Responded r) s) = Some no_image_message
  /\ generatedImage (generateImage (Responded r) s) = None.
Proof.
  intros Hvalid Hmissing.
  assert (Hparts : response_parts r = []).
  { unfold response_parts.
    destruct Hmissing as [H|[H|(c & rest & H & [Hc|(ct & Hc & [Hp|Hp])])]];
      rewrite H; simpl; try reflexivity; rewrite Hc; try reflexivity; now rewrite Hp. }
  unfold generateImage. rewrite (generateImage_begin_valid s Hvalid).
  unfold generateImage_settled. rewrite Hparts. now split.
Qed.

Lemma generateImage_missing_parts_witness :
  error (generateImage
           (Responded (Response.mk
                         (Some [ Candidate.mk None;
                                 Candidate.mk (Some (Content.mk (Some [inline_part "AAAA"]))) ])
                         None))
           robot)
  = Some no_image_message.
Proof.
  apply (generateImage_missing_parts _ robot eq_refl).
  right. right. eexists. eexists. split; [reflexivity|]. now left.
Defined.

(** ** Calls in flight along a run *)

(** Opens the handlers that a step applies to the state. *)
Ltac handlers :=
  unfold start_image, start_script, generateImage_begin, generateVideoScript_begin,
    handleFileChange_settled, generateImage_settled, generateVideoScript_settled;
  repeat match goal with
         | |- context [missing_input ?s] => destruct (missing_input s) eqn:?
         | |- context [no_image ?s] => destruct (no_image s) eqn:?
         | |- context [promise_all ?l] => destruct (promise_all l) eqn:?
         | |- context [scan_parts ?l] => destruct (scan_parts l) eqn:?
         | |- context [match ?o with Threw _ => _ | Responded _ => _ end] => destruct o
         | |- context [match ?e with Err.nullish => _ | Err.mk _ => _ end] => destruct e
         end.

Lemma step_image_busy_inv (w w' : World) (ev : Event) :
  step w ev = Some w' -> image_busy_inv w -> image_busy_inv w'.
Proof.
  unfold image_busy_inv.
  destruct ev as [v|id|id|newFiles|n|id| | |n o| |n o]; intro H; cbn [step] in H;
    try (aside H; fail).
  - destruct (isGenerating (ui w)) eqn:Hbusy; [discriminate|]. injection H as <-.
    intros [[Hnone _]|(req & _ & Hup & _)]; [|congruence].
    unfold start_image, generateImage_begin.
    destruct (missing_input (ui w)); simpl; [now left|right].
    rewrite Hnone. eexists. now repeat split.
  - destruct (no_image (ui w)) eqn:Himg; [discriminate|]. injection H as <-.
    intros [[Hnone Hdown]|(req & _ & _ & Hunset)].
    + unfold start_image, generateImage_begin.
      destruct (missing_input (ui w)); simpl; [now left|right].
      rewrite Hnone. eexists. now repeat split.
    + unfold no_image in Himg. rewrite Hunset in Himg. discriminate.
  - destruct (take_out n (imageCalls w)) as [[req rest']|] eqn:E; [|discriminate].
    injection H as <-. intros [[Hnone _]|(req' & Hone & _)].
    + rewrite Hnone, take_out_nil in E. discriminate.
    + rewrite Hone in E. left. split; [exact (take_out_singleton _ _ _ _ E)|].
      unfold generateImage_settled. now destruct o as [[|message]|r].
  - destruct (no_image (ui w) || negb (no_script (ui w)) || isGeneratingScript (ui w));
      [discriminate|].
    injection H as <-. unfold start_script, generateVideoScript_begin.
    destruct (no_image (ui w)); exact (fun I => I).
  - destruct (take_out n (scriptCalls w)) as [[req rest']|]; [|discriminate].
    injection H as <-. unfold generateVideoScript_settled.
    destruct o; exact (fun I => I).
Qed.

Lemma reachable_image_busy_inv (w : World) : reachable w -> image_busy_inv w.
Proof.
  intros [trace Hrun].
  apply (run_invariant image_busy_inv step_image_busy_inv trace boot w Hrun).
  left. now split.
Qed.

Lemma reachable_script_call_inv (w : World) : reachable w -> script_call_inv w.
Proof.
  intros [trace Hrun].
  exact (run_script_call_inv trace boot w Hrun boot_script_call_inv).
Qed.

(** X12: at every point of every run at most one image call is in flight; the
    busy flag of the generate button is up exactly while one is, and no
    generated image is held during that time. *)
Theorem one_image_call_at_a_time (w : World) :
  reachable w ->
  List.length (imageCalls w) <= 1
  /\ (isGenerating (ui w) = true <-> imageCalls w <> [])
  /\ (imageCalls w <> [] -> generatedImage (ui w) = None).
Proof.
  intro Hw. destruct (reachable_image_busy_inv w Hw) as [[Hnone Hdown]|(req & Hone & Hup & Hunset)].
  - rewrite Hnone, Hdown. repeat split; try (simpl; lia); intro H;
      try discriminate; now contradiction H.
  - rewrite Hone, Hup. repeat split; try (simpl; lia); try discriminate; trivial.
Qed.

(** X13: at every point of every run at most one script call is in flight;
    the busy flag of the script panel is up exactly while one is, no script
    is held during that time, and a script that is held is never empty. *)
Theorem one_script_call_at_a_time (w : World) :
  reachable w ->
  List.length (scriptCalls w) <= 1
  /\ (isGeneratingScript (ui w) = true <-> scriptCalls w <> [])
  /\ (scriptCalls w <> [] -> videoScript (ui w) = None)
  /\ videoScript (ui w) <> Some EmptyString.
Proof.
  intro Hw. destruct (reachable_script_call_inv w Hw)
    as [[[Hnone Hdown]|(req & Hone & Hup & Hunset)] Hheld].
  - rewrite Hnone, Hdown. repeat split; try (simpl; lia); try (intro H; discriminate H);
      try (intro H; now contradiction H).
    intro H. now apply (Hheld _ H).
  - rewrite Hone, Hup. repeat split; try (simpl; lia); try discriminate; trivial.
    intro H. now apply (Hheld _ H).
Qed.

Lemma reachable_awaiting_image : reachable awaiting_image.
Proof. now exists [TypeDescription "a robot reading a book"; ClickGenerate]. Qed.

Lemma reachable_awaiting_script : reachable awaiting_script.
Proof.
  now exists [ TypeDescription "a robot reading a book"; ClickGenerate;
               ImageSettled 0 (Responded (respond [inline_part "iVBORw0K"]));
               ClickGenerateScript ].
Qed.

Lemma reachable_with_script : reachable with_script.
Proof. now exists picture_session. Qed.

Lemma one_image_call_at_a_time_witness :
  List.length (imageCalls awaiting_image) <= 1
  /\ (isGenerating (ui awaiting_image) = true <-> imageCalls awaiting_image <> [])
  /\ (imageCalls awaiting_image <> [] -> generatedImage (ui awaiting_image) = None).
Proof. exact (one_image_call_at_a_time awaiting_image reachable_awaiting_image). Defined.

Lemma one_script_call_at_a_time_witness :
  List.length (scriptCalls awaiting_script) <= 1
  /\ (isGeneratingScript (ui awaiting_script) = true <-> scriptCalls awaiting_script <> [])
  /\ (scriptCalls awaiting_script <> [] -> videoScript (ui awaiting_script) = None)
  /\ videoScript (ui awaiting_script) <> Some EmptyString.
Proof. exact (one_script_call_at_a_time awaiting_script reachable_awaiting_script). Defined.

Lemma failed_image_call_leaves_unset_witness :
  (exists w',
      step awaiting_image (ImageSettled 0 (Responded (respond [text_part "sorry"]))) = Some w'
      /\ generatedImage (ui w') = None
      /\ error (ui w') <> None)
  /\ (exists w',
         step awaiting_image (ImageSettled 0 (Threw Err.nullish)) = Some w'
         /\ generatedImage (ui w') = None
         /\ error (ui w') = None).
Proof.
  split.
  - eexists. split; [reflexivity|].
    destruct (failed_image_call_leaves_unset awaiting_image _ 0
                (Responded (respond [text_part "sorry"])) reachable_awaiting_image eq_refl)
      as (Himage & _ & Herror).
    + intros r Hr. injection Hr as <-. reflexivity.
    + split; [exact Himage|]. apply Herror. discriminate.
  - eexists. split; [reflexivity|].
    destruct (failed_image_call_leaves_unset awaiting_image _ 0
                (Threw Err.nullish) reachable_awaiting_image eq_refl)
      as (Himage & Herror & _).
    + intros r Hr. discriminate Hr.
    + split; [exact Himage|]. now rewrite (Herror eq_refl).
Defined.

Lemma failed_script_call_leaves_unset_witness :
  exists w',
    step awaiting_script (ScriptSettled 0 (Threw (Err.mk (Some "fetch failed")))) = Some w'
    /\ videoScript (ui w') = None
    /\ error (ui w') = Some script_error_message.
Proof.
  eexists. split; [reflexivity|].
  exact (failed_script_call_leaves_unset awaiting_script _ 0 (Err.mk (Some "fetch failed"))
           reachable_awaiting_script eq_refl).
Defined.

Lemma script_with_image_when_attempts_apart_witness :
  exists img, generatedImage (ui with_script) = Some img.
Proof.
  apply (script_with_image_when_attempts_apart picture_session with_script eq_refl).
  discriminate.
Defined.

(** ** Selections and results along a run *)

Lemma step_selection (w w' : World) (ev : Event) :
  step w ev = Some w' ->
  selectedScene (ui w')
  = match ev with ClickScene id => id | _ => selectedScene (ui w) end
  /\ selectedStyle (ui w')
     = match ev with ClickStyle id => id | _ => selectedStyle (ui w) end.
Proof.
  destruct ev as [v|id|id|newFiles|n|id| | |n o| |n o]; intro H; cbn [step] in H;
    guards H; handlers; now split.
Qed.

Lemma step_selection_inv (w w' : World) (ev : Event) :
  step w ev = Some w' -> selection_inv w -> selection_inv w'.
Proof.
  unfold selection_inv. intros H [Hscene Hstyle].
  destruct (step_selection w w' ev H) as [-> ->].
  destruct ev; try (now split); cbn [step] in H.
  - destruct (has_id SCENES id) eqn:E; [now split|discriminate].
  - destruct (has_id STYLES id) eqn:E; [now split|discriminate].
Qed.

Lemma has_id_found (table : list Preset.t) (id : string) :
  has_id table id = true ->
  In id (map Preset.id table) /\ exists p, find_preset table id = Some p.
Proof.
  unfold has_id, find_preset. intro H. split.
  - apply existsb_exists in H. destruct H as (p & Hin & Heq).
    apply String.eqb_eq in Heq. rewrite <- Heq. now apply in_map.
  - destruct (find _ table) as [p|] eqn:E; [now exists p|].
    apply existsb_exists in H. destruct H as (p & Hin & Heq).
    now rewrite (find_none _ _ E p Hin) in Heq.
Qed.

(** X17: at every point of every run the selected scene and the selected
    style are rows of their tables, so the prompts are always built with a
    scene fragment, a style fragment and a scene label that are not empty. *)
Theorem selection_stays_in_tables (w : World) :
  reachable w ->
  In (selectedScene (ui w)) (map Preset.id SCENES)
  /\ In (selectedStyle (ui w)) (map Preset.id STYLES)
  /\ scene_prompt (ui w) <> EmptyString
  /\ style_prompt (ui w) <> EmptyString
  /\ scene_label (ui w) <> EmptyString.
Proof.
  intros [trace Hrun].
  assert (I : selection_inv w).
  { apply (run_invariant selection_inv step_selection_inv trace boot w Hrun). now split. }
  destruct I as [Hscene Hstyle].
  apply has_id_found in Hscene. destruct Hscene as [Hin1 [p Hp]].
  apply has_id_found in Hstyle. destruct Hstyle as [Hin2 [q Hq]].
  split; [assumption|]. split; [assumption|].
  pose proof SCENES_prompts_truthy as F1. rewrite Forall_forall in F1.
  pose proof STYLES_prompts_truthy as F2. rewrite Forall_forall in F2.
  destruct (F1 p (proj1 (find_preset_in _ _ _ Hp))) as [Hprompt Hlabel].
  destruct (F2 q (proj1 (find_preset_in _ _ _ Hq))) as [Hprompt' _].
  split; [now rewrite (scene_prompt_found _ p Hp)|].
  split; [now rewrite (style_prompt_found _ q Hq)|].
  unfold scene_label. rewrite Hp. cbn [option_map]. now rewrite or_else_truthy.
Qed.

Lemma selection_stays_in_tables_witness :
  scene_prompt (ui with_script) = "in deep space surrounded by stars and nebulae"
  /\ scene_prompt (ui with_script) <> EmptyString.
Proof.
  split; [reflexivity|].
  exact (proj1 (proj2 (proj2 (selection_stays_in_tables with_script reachable_with_script)))).
Defined.

Lemma scan_parts_prefix (ps : list Part.t) (url : string) :
  scan_parts ps = Some url -> exists data, url = "data:image/png;base64," ++ data.
Proof.
  induction ps as [|p ps IH]; simpl; [discriminate|].
  destruct (Part.inlineData p) as [blob|]; [|assumption].
  intro H. injection H as <-. now eexists.
Qed.

Lemma step_image_uri_inv (w w' : World) (ev : Event) :
  step w ev = Some w' -> image_uri_inv w -> image_uri_inv w'.
Proof.
  unfold image_uri_inv.
  destruct ev as [v|id|id|newFiles|n|id| | |n o| |n o]; intro H; cbn [step] in H;
    try (aside H; fail).
  - guards H. unfold start_image, generateImage_begin.
    destruct (missing_input (ui w)); simpl; [exact (fun I => I)|discriminate].
  - guards H. unfold start_image, generateImage_begin.
    destruct (missing_input (ui w)); simpl; [exact (fun I => I)|discriminate].
  - guards H. unfold generateImage_settled.
    destruct o as [[|message]|r]; try exact (fun I => I).
    destruct (scan_parts (response_parts r)) as [url|] eqn:E; [|exact (fun I => I)].
    intros _ image Himage. injection Himage as <-. exact (scan_parts_prefix _ _ E).
  - guards H. unfold start_script, generateVideoScript_begin.
    destruct (no_image (ui w)); exact (fun I => I).
  - guards H. unfold generateVideoScript_settled. destruct o; exact (fun I => I).
Qed.

Lemma reachable_image_uri_inv (w : World) : reachable w -> image_uri_inv w.
Proof.
  intros [trace Hrun].
  apply (run_invariant image_uri_inv step_image_uri_inv trace boot w Hrun).
  intros image H. discriminate H.
Qed.

(** ** [downloadImage] *)

Lemma append_left_cancel (p a b : string) : p ++ a = p ++ b -> a = b.
Proof.
  induction p as [|c p IH]; simpl; intro H; [assumption|].
  injection H as H. now apply IH.
Qed.

Lemma append_length (a b : string) :
  String.length (a ++ b) = String.length a + String.length b.
Proof. induction a as [|c a IH]; simpl; [reflexivity|now rewrite IH]. Qed.

Lemma append_right_cancel (a b t : string) : a ++ t = b ++ t -> a = b.
Proof.
  revert b. induction a as [|c a IH]; intros b H.
  - apply (f_equal String.length) in H. rewrite !append_length in H.
    destruct b; [reflexivity|simpl in H; lia].
  - destruct b as [|d b].
    + apply (f_equal String.length) in H. rewrite !append_length in H. simpl in H. lia.
    + simpl in H. injection H as -> H. f_equal. now apply IH.
Qed.

Lemma number_to_string_inj (m n : Z) :
  number_to_string m = number_to_string n -> m = n.
Proof.
  unfold number_to_string. intro H. apply DecimalZ.to_int_inj.
  apply (f_equal NilEmpty.int_of_string) in H. rewrite !NilEmpty.isi in H.
  now injection H.
Qed.

(** X18: [downloadImage] does nothing when no generated image is held;
    otherwise the link it clicks points at the generated image itself, and
    two downloads get the same file name only when they happen within the
    same millisecond. *)
Theorem downloadImage_link (s : State) :
  (generatedImage s = None -> forall now, downloadImage now s = None)
  /\ (forall t1 t2 a1 a2,
         downloadImage t1 s = Some a1 ->
         downloadImage t2 s = Some a2 ->
         generatedImage s = Some (Anchor.href a1)
         /\ Anchor.href a2 = Anchor.href a1
         /\ (Anchor.download a1 = Anchor.download a2 <-> t1 = t2)).
Proof.
  unfold downloadImage. split.
  - intros H now. now rewrite H.
  - intros t1 t2 a1 a2. destruct (generatedImage s) as [image|]; [|discriminate].
    destruct (JS.truthy image); [|discriminate].
    intros H1 H2. injection H1 as <-. injection H2 as <-. simpl.
    split; [reflexivity|]. split; [reflexivity|]. split.
    + intro H. apply (append_left_cancel "vision-ai-") in H.
      apply append_right_cancel in H. now apply number_to_string_inj.
    + now intros ->.
Qed.

Lemma downloadImage_link_witness :
  downloadImage 1793620800123 pictured
  = Some (Anchor.mk "data:image/png;base64,iVBORw0K" "vision-ai-1793620800123.png")
  /\ (Anchor.download (Anchor.mk "data:image/png;base64,iVBORw0K" "vision-ai-1793620800123.png")
      = Anchor.download (Anchor.mk "data:image/png;base64,iVBORw0K" "vision-ai-1793620800124.png")
      <-> 1793620800123%Z = 1793620800124%Z)
  /\ downloadImage 1793620800123 robot = None.
Proof.
  split; [reflexivity|]. split.
  - exact (proj2 (proj2 (proj2 (downloadImage_link pictured) 1793620800123%Z 1793620800124%Z
                           _ _ eq_refl eq_refl))).
  - exact (proj1 (downloadImage_link robot) eq_refl 1793620800123%Z).
Defined.

(** X19: at every point of every run the download is available exactly when
    a generated image is held, and what it saves is a PNG data URI under a
    name of the form vision-ai-<time>.png. *)
Theorem downloadImage_in_runs (w : World) (now : Z) :
  reachable w ->
  (downloadImage now (ui w) = None <-> generatedImage (ui w) = None)
  /\ (forall a, downloadImage now (ui w) = Some a ->
                (exists data, Anchor.href a = "data:image/png;base64," ++ data)
                /\ Anchor.download a = "vision-ai-" ++ number_to_string now ++ ".png").
Proof.
  intro Hw. pose proof (reachable_image_uri_inv w Hw) as I. unfold image_uri_inv in I.
  unfold downloadImage. destruct (generatedImage (ui w)) as [image|].
  - destruct (I image eq_refl) as [data ->]. simpl. split.
    + split; discriminate.
    + intros a H. injection H as <-. simpl. split; [now exists data|reflexivity].
  - split; [now split|discriminate].
Qed.

Lemma downloadImage_in_runs_witness :
  exists a,
    downloadImage 1793620800123 (ui with_script) = Some a
    /\ Anchor.download a = "vision-ai-1793620800123.png".
Proof.
  eexists. split; [reflexivity|].
  exact (proj2 (proj2 (downloadImage_in_runs with_script 1793620800123 reachable_with_script)
                  _ eq_refl)).
Defined.

(** ** [copyToClipboard] *)

(** X20: when the panel shows the copy button, a click hands the held script,
    unchanged, to the clipboard, sets a timer of two seconds and turns the
    label of the button to the acknowledgement; the callback of the timer
    turns the label back.  Without a script the handler does nothing. *)
Theorem copyToClipboard_copies_script (s : State) :
  (forall label, script_control s = CopyButton label ->
     exists v,
       videoScript s = Some v
       /\ copyToClipboard s = (setCopied true s, Some (v, 2000))
       /\ script_control (fst (copyToClipboard s)) = CopyButton "已复制"
       /\ script_control (copied_timeout (fst (copyToClipboard s))) = CopyButton "复制脚本")
  /\ (no_script s = true -> copyToClipboard s = (s, None)).
Proof.
  unfold script_control, copyToClipboard, no_script. split.
  - intros label. destruct (videoScript s) as [v|] eqn:Hv; simpl.
    + destruct (JS.truthy v) eqn:Ht; simpl.
      * intros _. exists v. split; [reflexivity|]. split; [reflexivity|].
        unfold script_control, no_script. simpl. rewrite Hv, Ht. simpl. now split.
      * destruct (isGeneratingScript s); discriminate.
    + destruct (isGeneratingScript s); discriminate.
  - destruct (videoScript s) as [v|]; [|reflexivity].
    destruct (JS.truthy v); [discriminate|reflexivity].
Qed.

Lemma copyToClipboard_copies_script_witness :
  snd (copyToClipboard (ui with_script)) = Some ("INT. CITY — DAY...", 2000)
  /\ copyToClipboard robot = (robot, None).
Proof.
  split.
  - destruct (proj1 (copyToClipboard_copies_script (ui with_script)) "复制脚本" eq_refl)
      as (v & Hv & Hcopy & _).
    rewrite Hcopy. injection Hv as <-. reflexivity.
  - exact (proj2 (copyToClipboard_copies_script robot) eq_refl).
Defined.

Lemma step_copied (w w' : World) (ev : Event) :
  step w ev = Some w' -> copied (ui w') = copied (ui w).
Proof.
  destruct ev as [v|id|id|newFiles|n|id| | |n o| |n o]; intro H; cbn [step] in H;
    guards H; handlers; reflexivity.
Qed.

Lemma desk_step_timer (d d' : Desk) (g : Gesture) :
  desk_step d g = Some d' ->
  (copied (ui (world d)) = true -> 0 < copyTimers d) ->
  copied (ui (world d')) = true -> 0 < copyTimers d'.
Proof.
  destruct g as [ev| |]; simpl.
  - destruct (step (world d) ev) as [w'|] eqn:E; [|discriminate].
    intro H. injection H as <-. simpl. now rewrite (step_copied _ _ _ E).
  - destruct (no_image (ui (world d)) || no_script (ui (world d))); [discriminate|].
    intro H. injection H as <-. simpl. lia.
  - destruct (copyTimers d) as [|n]; [discriminate|].
    intro H. injection H as <-. simpl. discriminate.
Qed.

(** X21: the acknowledgement of the copy button never sticks: at every point
    of every run in which the copy button is used, whenever the flag behind
    the acknowledgement is up, a timer that lowers it is still pending. *)
Theorem copied_has_timer (gs : list Gesture) (d : Desk) :
  desk_run desk_boot gs = Some d ->
  copied (ui (world d)) = true ->
  0 < copyTimers d.
Proof.
  assert (G : forall gs d0 d1,
             desk_run d0 gs = Some d1 ->
             (copied (ui (world d0)) = true -> 0 < copyTimers d0) ->
             copied (ui (world d1)) = true -> 0 < copyTimers d1).
  { clear. induction gs as [|g rest IH]; intros d0 d1 H I; simpl in H.
    - now injection H as <-.
    - destruct (desk_step d0 g) as [d'|] eqn:E; [|discriminate].
      exact (IH d' d1 H (desk_step_timer d0 d' g E I)). }
  intro H. apply (G gs desk_boot d H). discriminate.
Qed.

Lemma copied_has_timer_witness :
  copied (ui (world after_copy)) = true /\ 0 < copyTimers after_copy.
Proof.
  split; [reflexivity|].
  apply (copied_has_timer copy_gestures after_copy); [vm_compute|]; reflexivity.
Defined.

(** ** What the render shows along a run *)

(** X22: at every point of every run the result card shows exactly one of its
    three faces: the placeholder, the spinner or the generated image. *)
Theorem result_card_one_face (w : World) :
  reachable w ->
  (image_placeholder (ui w), image_spinner (ui w), image_shown (ui w))
  = (true, false, false)
  \/ (image_placeholder (ui w), image_spinner (ui w), image_shown (ui w))
     = (false, true, false)
  \/ (image_placeholder (ui w), image_spinner (ui w), image_shown (ui w))
     = (false, false, true).
Proof.
  intro Hw. unfold image_placeholder, image_spinner, image_shown.
  destruct (reachable_image_busy_inv w Hw) as [[_ Hdown]|(req & _ & Hup & Hunset)].
  - rewrite Hdown. destruct (no_image (ui w)); simpl; auto.
  - rewrite Hup. unfold no_image. rewrite Hunset. simpl. auto.
Qed.

Lemma result_card_one_face_witness :
  (image_placeholder (ui awaiting_image), image_spinner (ui awaiting_image),
   image_shown (ui awaiting_image)) = (false, true, false).
Proof.
  destruct (result_card_one_face awaiting_image reachable_awaiting_image)
    as [H|[H|H]]; (exact H || discriminate H).
Defined.

(** X23: at every point of every run the header and the body of the script
    panel agree: the generate-script button stands over the hint, no control
    stands over the spinner while a script call is in flight, and the copy
    button stands over the script that is held. *)
Theorem script_panel_agrees (w : World) :
  reachable w ->
  (script_control (ui w) = GenerateScriptButton /\ script_body (ui w) = ScriptHint)
  \/ (script_control (ui w) = NoControl /\ script_body (ui w) = ScriptSpinner
      /\ scriptCalls w <> [])
  \/ (exists label v,
         script_control (ui w) = CopyButton label
         /\ script_body (ui w) = ScriptText v
         /\ videoScript (ui w) = Some v).
Proof.
  intro Hw. unfold script_control, script_body, no_script.
  destruct (reachable_script_call_inv w Hw)
    as [[[_ Hdown]|(req & Hone & Hup & Hunset)] Hheld].
  - rewrite Hdown. destruct (videoScript (ui w)) as [v|] eqn:Hv; [|now left].
    specialize (Hheld v eq_refl). apply truthy_not_empty in Hheld. rewrite Hheld. simpl.
    right. right. now eexists; exists v.
  - rewrite Hup, Hunset, Hone. simpl. right. left. now repeat split.
Qed.

Lemma script_panel_agrees_witness :
  script_control (ui with_script) = CopyButton "复制脚本"
  /\ script_body (ui with_script) = ScriptText "INT. CITY — DAY...".
Proof.
  destruct (script_panel_agrees with_script reachable_with_script)
    as [[H _]|[[H _]|(label & v & _ & _ & _)]]; try discriminate H.
  split; reflexivity.
Defined.

Lemma step_error (w w' : World) (ev : Event) :
  step w ev = Some w' ->
  error (ui w) <> Some EmptyString -> error (ui w') <> Some EmptyString.
Proof.
  destruct ev as [v|id|id|newFiles|n|id| | |n o| |n o]; intro H; cbn [step] in H;
    guards H; handlers; simpl; try (exact (fun I => I)); try discriminate.
  intros _ He. injection He as He. revert He. apply or_else_not_empty. discriminate.
Qed.

(** X24: at every point of every run an error that is set is not the empty
    string, so the banner under the generate button shows every error that is
    set. *)
Theorem error_is_shown (w : World) :
  reachable w -> error_banner (ui w) = error (ui w).
Proof.
  intros [trace Hrun].
  assert (I : error (ui w) <> Some EmptyString).
  { apply (run_invariant (fun w => error (ui w) <> Some EmptyString) step_error
             trace boot w Hrun).
    discriminate. }
  unfold error_banner. destruct (error (ui w)) as [e|]; [|reflexivity].
  destruct e; [now contradiction I|reflexivity].
Qed.

Lemma error_is_shown_witness :
  exists w,
    run boot [ClickGenerate] = Some w
    /\ error_banner (ui w) = Some validation_message.
Proof.
  eexists. split; [reflexivity|].
  rewrite error_is_shown; [reflexivity|]. now exists [ClickGenerate].
Defined.

(** ** The script request *)

Lemma script_prompt_includes (s : State) :
  JS.includes (script_prompt s) (description s)
  /\ JS.includes (script_prompt s) (scene_label s).
Proof.
  unfold script_prompt. split.
  - set (a := "Based on the generated image and the original description ").
    exists (a ++ JS.dq). eexists. repeat rewrite append_assoc. reflexivity.
  - set (a := "Based on the generated image and the original description ").
    exists (a ++ JS.dq ++ description s ++ JS.dq ++ " in the ").
    eexists. repeat rewrite append_assoc. reflexivity.
Qed.

(** X25: the script request is a bare instruction that names the description
    and the label of the selected scene, and it is determined by these two
    cells alone: neither the generated image nor the uploads nor the style
    reach it. *)
Theorem script_request_reads_two_cells (s1 s2 : State) :
  description s1 = description s2 ->
  selectedScene s1 = selectedScene s2 ->
  script_request s1 = script_request s2
  /\ Request.body (script_request s1) = Request.Prompt (script_prompt s1)
  /\ JS.includes (script_prompt s1) (description s1)
  /\ JS.includes (script_prompt s1) (scene_label s1).
Proof.
  intros Hd Hs. split; [|split; [reflexivity|apply script_prompt_includes]].
  unfold script_request, script_prompt, scene_label. now rewrite Hd, Hs.
Qed.

Lemma script_request_reads_two_cells_witness :
  script_request pictured = script_request (ui awaiting_image)
  /\ JS.includes (script_prompt pictured) "🏙️ 城市街道".
Proof.
  destruct (script_request_reads_two_cells pictured (ui awaiting_image) eq_refl eq_refl)
    as (H & _ & _ & Hlabel).
  split; [exact H|exact Hlabel].
Defined.
